(** * Sentinel agent: ingestion, detection, persistence and IPC

  A shallow embedding of the Python agent under
  [legacy_python_agent/agent/sentinel] and the properties of its
  collector, rule engine, threat store, parser dispatch and IPC
  request processing.

  Conventions of the embedding.
  - Python [str] is [string]: the sequence of the code points of the
    text, one character each, for text whose code points are below 256;
    text with other code points is outside the embedding. [int] is [Z]; a
    [float] holding a time or a score is idealised as a rational [Q];
    [Optional[T]] is [option T].
  - A [dict] with string keys is a [gmap string _].
  - A call that can raise returns a [res]; a loop that is not
    structurally recursive takes fuel and reports when it runs out.
  - Logging is not modelled. *)

From Stdlib Require Import ZArith QArith Ascii String List Sorting.Sorted Lia.
From stdpp Require Import base option gmap strings list fin_maps sorting.

Set Warnings "-register-all,-clear-no-such-hyp".
Local Open Scope string_scope.

(** ** Python values shared by the components *)

Module py.

(** Exceptions that cross a function boundary in the embedded code. *)
Inductive exn :=
| TypeError (msg : string)
| KeyError (key : string)
| ValueError (msg : string)
| AttributeError (msg : string)
| OverflowError (msg : string)
| IntegrityError (msg : string).

Inductive res (A : Type) :=
| Ok (a : A)
| Raise (e : exn).
Arguments Ok {A} a.
Arguments Raise {A} e.

(** [needle in hay] on [str]: [needle] occurs as a contiguous slice. *)
Fixpoint startswith (s p : string) {struct p} : bool :=
  match p, s with
  | EmptyString, _ => true
  | String _ _, EmptyString => false
  | String a p', String b s' => if Ascii.eqb a b then startswith s' p' else false
  end.

Fixpoint str_in (needle hay : string) : bool :=
  startswith hay needle
  || match hay with
     | EmptyString => false
     | String _ hay' => str_in needle hay'
     end.

(** [str.isspace] on one character. Below 256 the white space is
    U+0009..U+000D, U+001C..U+0020, U+0085 (next line) and U+00A0
    (no-break space); [str.strip()] and [str.split()] use the same set. *)
Definition isspace (c : ascii) : bool :=
  let n := nat_of_ascii c in
  ((9 <=? n) && (n <=? 13) || (28 <=? n) && (n <=? 32)
   || (n =? 133) || (n =? 160))%nat.

Fixpoint lstrip (s : string) : string :=
  match s with
  | EmptyString => EmptyString
  | String c s' => if isspace c then lstrip s' else s
  end.

(** [rstrip] keeps a character when it is not a space or when something
    survives to its right. *)
Fixpoint rstrip (s : string) : string :=
  match s with
  | EmptyString => EmptyString
  | String c s' =>
      match rstrip s' with
      | EmptyString => if isspace c then EmptyString else String c EmptyString
      | r => String c r
      end
  end.

Definition strip (s : string) : string := rstrip (lstrip s).

(** Truthiness of an [Optional[str]] and the value of [a or b]. *)
Definition truthy (a : option string) : bool :=
  match a with
  | Some (String _ _) => true
  | _ => false
  end.

Definition or_ (a b : option string) : option string :=
  if truthy a then a else b.

End py.

(** ** JSON values, as [json.loads] produces them *)

Module json.

Inductive value :=
| Null
| Bool (b : bool)
| Int (n : Z)
| Float (bits : N)          (* binary64 bit pattern; never inspected *)
| Str (s : string)
| Arr (l : list value)
| Obj (m : gmap string value).

(** [d.get(k)] and [d.get(k, default)]: an absent key and a stored
    [null] both read as Python [None]. *)
Definition get (d : gmap string value) (k : string) : value :=
  default Null (d !! k).

Definition get_default (d : gmap string value) (k : string) (dflt : value) : value :=
  default dflt (d !! k).

(** [hash(v)] raises [TypeError] on a [list] and on a [dict]. *)
Definition hashable (v : value) : bool :=
  match v with
  | Arr _ | Obj _ => false
  | _ => true
  end.

Definition type_name (v : value) : string :=
  match v with
  | Null => "NoneType"
  | Bool _ => "bool"
  | Int _ => "int"
  | Float _ => "float"
  | Str _ => "str"
  | Arr _ => "list"
  | Obj _ => "dict"
  end.

End json.

(** ** ipc.py: request processing of [IPCServer] *)

Module ipc.

(** What awaiting a handler does: it returns a JSON-serialisable value or
    raises an [Exception] whose [str()] is [msg]. *)
Inductive outcome :=
| Returns (result : json.value)
| Raises (msg : string).

Definition handler := json.value -> outcome.

Record IPCServer := {
  socket_path : string;
  handlers : gmap string handler
}.

(** [method in self.handlers]. The keys are [str]; a key of another
    hashable type is never equal to one of them, and an unhashable one
    makes the membership test itself raise. *)
Definition contains (self : IPCServer) (method : json.value) : py.res bool :=
  match method with
  | json.Str s => py.Ok (bool_decide (is_Some (handlers self !! s)))
  | json.Arr _ | json.Obj _ =>
      py.Raise (py.TypeError ("unhashable type: '" +:+ json.type_name method +:+ "'"))
  | _ => py.Ok false
  end.

(** [self.handlers[method]], reached only after [contains] said yes. *)
Definition getitem (self : IPCServer) (method : json.value) : py.res handler :=
  match method with
  | json.Str s =>
      match handlers self !! s with
      | Some h => py.Ok h
      | None => py.Raise (py.KeyError s)
      end
  | json.Arr _ | json.Obj _ =>
      py.Raise (py.TypeError ("unhashable type: '" +:+ json.type_name method +:+ "'"))
  | _ => py.Raise (py.KeyError (json.type_name method))
  end.

Definition error_object (code : Z) (message : string) : json.value :=
  json.Obj (<["code" := json.Int code]> (<["message" := json.Str message]> ∅)).

Definition error_response (code : Z) (message : string) (msg_id : json.value)
  : gmap string json.value :=
  <["jsonrpc" := json.Str "2.0"]>
    (<["error" := error_object code message]>
       (<["id" := msg_id]> ∅)).

Definition result_response (result msg_id : json.value) : gmap string json.value :=
  <["jsonrpc" := json.Str "2.0"]>
    (<["result" := result]>
       (<["id" := msg_id]> ∅)).

Definition process_request (self : IPCServer) (request : gmap string json.value)
  : py.res (gmap string json.value) :=
  let method := json.get request "method" in
  let params := json.get_default request "params" (json.Obj ∅) in
  let msg_id := json.get request "id" in
  match contains self method with
  | py.Raise e => py.Raise e
  | py.Ok false => py.Ok (error_response (-32601) "Method not found" msg_id)
  | py.Ok true =>
      match getitem self method with
      | py.Raise e => py.Raise e
      | py.Ok h =>
          match h params with
          | Returns result => py.Ok (result_response result msg_id)
          | Raises msg => py.Ok (error_response (-32000) msg msg_id)
          end
      end
  end.

End ipc.

(** ** store/models.py *)

Module models.

(** The two default factories of [Threat] read the outside world: a
    random UUID and the wall clock. One draw of each is an [Env]. The
    integer of a UUID is below [2^128]. *)
Record Env := {
  uuid4_int : N;
  now_isoformat : string
}.

Definition hex_digit (d : N) : ascii :=
  match d with
  | 0%N => "0" | 1%N => "1" | 2%N => "2" | 3%N => "3"
  | 4%N => "4" | 5%N => "5" | 6%N => "6" | 7%N => "7"
  | 8%N => "8" | 9%N => "9" | 10%N => "a" | 11%N => "b"
  | 12%N => "c" | 13%N => "d" | 14%N => "e" | _ => "f"
  end%char.

(** The [width] low hexadecimal digits of [n], most significant first:
    ['%0<width>x' % n] for [n < 16^width]. *)
Fixpoint hex_fixed (width : nat) (n : N) (acc : string) : string :=
  match width with
  | O => acc
  | S w => hex_fixed w (N.div n 16) (String (hex_digit (N.modulo n 16)) acc)
  end.

(** [uuid.UUID.hex] *)
Definition uuid_hex (n : N) : string := hex_fixed 32 n EmptyString.

(** [s[:k]] *)
Fixpoint str_take (k : nat) (s : string) : string :=
  match k, s with
  | S k', String c s' => String c (str_take k' s')
  | _, _ => EmptyString
  end.

Record Threat := {
  source : string;
  severity : string;
  type : string;
  description : string;
  attacker_ip : option string;
  attacker_geo : option string;
  raw_log : option string;
  risk_score : Q;
  rule_id : option string;
  anomaly_score : option Q;
  llm_explanation : option string;
  status : string;
  id : string;
  created_at : string;
  resolved_at : option string;
  resolved_by : option string
}.

Definition default_id (env : Env) : string :=
  "THR-" +:+ str_take 12 (uuid_hex (uuid4_int env)).

Definition default_created_at (env : Env) : string := now_isoformat env.

(** The regular expression [^THR-[0-9a-f]{12}$] as a full match. *)
Definition is_lower_hex (c : ascii) : bool :=
  let n := nat_of_ascii c in
  ((48 <=? n) && (n <=? 57) || (97 <=? n) && (n <=? 102))%nat.

Fixpoint all_chars (p : ascii -> bool) (s : string) : bool :=
  match s with
  | EmptyString => true
  | String c s' => p c && all_chars p s'
  end.

Definition matches_THR_id (s : string) : bool :=
  match s with
  | String "T" (String "H" (String "R" (String "-" rest))) =>
      Nat.eqb (String.length rest) 12 && all_chars is_lower_hex rest
  | _ => false
  end.

End models.

(** ** parser/base.py *)

Module base.

Record ParsedEvent := {
  source : string;
  timestamp : Q;
  raw : string;
  data : gmap string string;
  type : string
}.

End base.

(** ** The [re] module, as far as the agent uses it *)

(** [pattern.search(s)] returns a match object or [None]; a match object is
    always truthy; [match.groupdict()] maps every named group to its text,
    or to [None] when the group took no part in the match. *)
Class Regex (Pattern Match : Type) := {
  search : Pattern -> string -> option Match;
  groupdict : Match -> gmap string (option string)
}.

(** ** detector/rules/engine.py *)

Module engine.

Section WithRegex.
Context {Pattern Match : Type} `{Regex Pattern Match}.

Record Rule := {
  id : string;
  name : string;
  description : string;
  severity : string;
  source : string;
  patterns : list Pattern;
  threshold : Z;
  window : Z
}.

Record RuleEngine := {
  rules_path : string;
  rules : list Rule;
  state : gmap string (list Q)
}.

(** [groups.get("attacker_ip") or groups.get("ip") or
    event.data.get("ip") or event.data.get("remote_addr")] *)
Definition attacker_ip_of (m : Match) (event : base.ParsedEvent) : option string :=
  let groups := groupdict m in
  py.or_ (py.or_ (py.or_ (mjoin (groups !! "attacker_ip"))
                         (mjoin (groups !! "ip")))
                 (base.data event !! "ip"))
         (base.data event !! "remote_addr").

Definition make_threat (rule : Rule) (m : Match) (event : base.ParsedEvent)
    (env : models.Env) : models.Threat :=
  {| models.source := base.source event;
     models.severity := severity rule;
     models.type := "rule_match";
     models.description := description rule;
     models.attacker_ip := attacker_ip_of m event;
     models.attacker_geo := None;
     models.raw_log := Some (base.raw event);
     models.risk_score := 0.8%Q;
     models.rule_id := Some (id rule);
     models.anomaly_score := None;
     models.llm_explanation := None;
     models.status := "open";
     models.id := models.default_id env;
     models.created_at := models.default_created_at env;
     models.resolved_at := None;
     models.resolved_by := None |}.

(** The inner loop: the first pattern of the rule that is found in the
    raw line. *)
Fixpoint first_match (ps : list Pattern) (raw : string) : option Match :=
  match ps with
  | [] => None
  | pattern :: ps' =>
      match search pattern raw with
      | Some m => Some m
      | None => first_match ps' raw
      end
  end.

(** [rule.source != "any" and rule.source != event.source]: the rule is
    skipped. *)
Definition skipped (rule : Rule) (event : base.ParsedEvent) : bool :=
  negb (String.eqb (source rule) "any")
  && negb (String.eqb (source rule) (base.source event)).

(** The outer loop over [self.rules]. *)
Fixpoint evaluate_rules (rs : list Rule) (event : base.ParsedEvent)
    (env : models.Env) : option models.Threat :=
  match rs with
  | [] => None
  | rule :: rs' =>
      if skipped rule event then evaluate_rules rs' event env
      else
        match first_match (patterns rule) (base.raw event) with
        | Some m => Some (make_threat rule m event env)
        | None => evaluate_rules rs' event env
        end
  end.

(** [RuleEngine.evaluate]: the returned threat and the engine after the
    call. No statement of the method assigns to [self]. *)
Definition evaluate (self : RuleEngine) (event : base.ParsedEvent)
    (env : models.Env) : option models.Threat * RuleEngine :=
  (evaluate_rules (rules self) event env, self).

End WithRegex.

Arguments Rule Pattern : clear implicits.
Arguments RuleEngine Pattern : clear implicits.

End engine.

(** ** The sliding window as the specification words it

    This definition follows the specification (section 4.3, Aggregation),
    not the source: it is what [engine.evaluate] is compared against. One
    bucket holds the match timestamps of one [(rule.id, attacker_ip)] key. *)

Module spec_aggregation.

(** On a match at time [now]: discard the timestamps older than
    [now - window], append [now], emit when the count has reached
    [threshold], and clear the bucket on emission. *)
Definition on_match (threshold window : Z) (now : Q) (bucket : list Q)
  : bool * list Q :=
  let kept := List.filter (fun ts => Qle_bool (now - inject_Z window) ts) bucket in
  let bucket' := (kept ++ [now])%list in
  if (threshold <=? Z.of_nat (List.length bucket'))%Z
  then (true, [])
  else (false, bucket').

(** The emissions over a sequence of matches of one key. *)
Fixpoint run (threshold window : Z) (times : list Q) (bucket : list Q) : list bool :=
  match times with
  | [] => []
  | now :: times' =>
      let '(emit, bucket') := on_match threshold window now bucket in
      emit :: run threshold window times' bucket'
  end.

End spec_aggregation.

(** ** collector/watcher.py *)

Module watcher.

Record LogEvent := {
  source_path : string;
  content : string;
  timestamp : Q
}.

(** The part of the file system a tailer sees during one call: the inode
    each path names, and the text of each inode as the text layer of
    [open(path, "r")] presents it: decoded, and with every line end turned
    into a newline, so that it holds no carriage return. A path whose inode
    has no text stands for a file that [open] fails on.

    The text layer decodes strictly and reads ahead in blocks, so bytes that
    do not decode make a [readline] raise [UnicodeDecodeError], at a call
    that depends on the blocks and not on the line that holds the bytes.
    [decode_error i p] tells it for the handle of the call that stands on
    inode [i] at position [p]: [Some p'] when [readline] raises, with [p']
    the position the handle is left at. *)
Record FileSystem := {
  dirents : gmap string N;
  inodes : gmap N string;
  decode_error : N -> nat -> option nat
}.

(** Whatever is read of the inode decodes. *)
Definition decodes (fs : FileSystem) (i : N) : Prop :=
  forall p, decode_error fs i p = None.

(** An open text file: the inode it was opened on and the read position. *)
Record TextIO := {
  ino : N;
  pos : nat;
  closed : bool
}.

Record FileTailer := {
  path : string;
  start_at_end : bool;
  _fd : option TextIO;
  _inode : option N;
  _offset : nat
}.

(** [FileTailer(path)] and [FileTailer(path, start_at_end)] *)
Definition new_FileTailer (p : string) (at_end : bool) : FileTailer :=
  {| path := p; start_at_end := at_end; _fd := None; _inode := None; _offset := 0 |}.

Definition FileTailer_default (p : string) : FileTailer := new_FileTailer p true.

(** [os.stat(path).st_ino]; [None] is [FileNotFoundError]. *)
Definition stat_ino (fs : FileSystem) (p : string) : option N := dirents fs !! p.

(** [FileTailer.open] *)
Definition open (fs : FileSystem) (self : FileTailer) : FileTailer :=
  match dirents fs !! path self with
  | None => self                                   (* not self.path.exists() *)
  | Some i =>
      match inodes fs !! i with
      | None => self                               (* open() raised; logged *)
      | Some text =>
          let p := if start_at_end self then String.length text else 0 in
          {| path := path self;
             start_at_end := start_at_end self;
             _fd := Some {| ino := i; pos := p; closed := false |};
             _inode := Some i;
             _offset := p |}
      end
  end.

(** What a tailer looks like once [open] has taken the file named by its
    path. *)
Definition reopened (self : FileTailer) (i : N) (p offset : nat) : FileTailer :=
  {| path := path self;
     start_at_end := start_at_end self;
     _fd := Some {| ino := i; pos := p; closed := false |};
     _inode := Some i;
     _offset := offset |}.

(** [s[k:]] *)
Fixpoint str_drop (k : nat) (s : string) : string :=
  match k, s with
  | S k', String _ s' => str_drop k' s'
  | _, _ => s
  end.

Definition newline : ascii := ascii_of_nat 10.

(** The text up to and including the first newline, or all of it. *)
Fixpoint take_line (s : string) : string :=
  match s with
  | EmptyString => EmptyString
  | String c s' =>
      if Ascii.eqb c newline then String c EmptyString
      else String c (take_line s')
  end.

(** The text cut after each newline: what successive [readline] calls
    return before the empty string. *)
Fixpoint lines (s : string) : list string :=
  match s with
  | EmptyString => []
  | String c s' =>
      if Ascii.eqb c newline then String c EmptyString :: lines s'
      else match lines s' with
           | [] => [String c EmptyString]
           | line :: rest => String c line :: rest
           end
  end.

(** The text an open file reads from. *)
Definition text_of (fs : FileSystem) (fd : TextIO) : string :=
  default EmptyString (inodes fs !! ino fd).

(** The file as [readline] leaves it at EOF. *)
Definition at_eof (fs : FileSystem) (fd : TextIO) : TextIO :=
  {| ino := ino fd;
     pos := pos fd + String.length (str_drop (pos fd) (text_of fs fd));
     closed := false |}.

(** [fd.readline()] on an open file: the line, or [None] when the call
    raises [UnicodeDecodeError], and the file after it. An inode without
    text reads as empty. *)
Definition readline (fs : FileSystem) (fd : TextIO) : option string * TextIO :=
  match decode_error fs (ino fd) (pos fd) with
  | Some p => (None, {| ino := ino fd; pos := p; closed := closed fd |})
  | None =>
      let text := text_of fs fd in
      let line := take_line (str_drop (pos fd) text) in
      (Some line,
       {| ino := ino fd; pos := pos fd + String.length line; closed := closed fd |})
  end.

Definition with_fd (self : FileTailer) (fd : option TextIO) : FileTailer :=
  {| path := path self;
     start_at_end := start_at_end self;
     _fd := fd;
     _inode := _inode self;
     _offset := _offset self |}.

Definition close_fd (fd : TextIO) : TextIO :=
  {| ino := ino fd; pos := pos fd; closed := true |}.

(** How a call of the generator [read] ends. The [UnicodeDecodeError] of
    [readline] is kept apart: its codec, byte and position are not
    modelled. *)
Inductive ending :=
| Returned
| Raised (e : py.exn)
| RaisedUnicodeDecodeError
| OutOfFuel.

(** The [while True] loop of [FileTailer.read], given the open [self._fd].
    The lines are those yielded so far, latest last. *)
Fixpoint read_loop (fuel : nat) (fs : FileSystem) (self : FileTailer)
    (yielded : list string) : list string * FileTailer * ending :=
  match fuel with
  | O => (yielded, self, OutOfFuel)
  | S fuel' =>
      match _fd self with
      | None => (yielded, self, Raised (py.AttributeError "readline"))
      | Some fd =>
          if closed fd
          then (yielded, self, Raised (py.ValueError "I/O operation on closed file."))
          else
            let '(line, fd') := readline fs fd in
            let self' := with_fd self (Some fd') in
            match line with
            | None => (yielded, self', RaisedUnicodeDecodeError)
            | Some (String _ _ as line) =>
                (* both branches of the endswith test yield line.strip() *)
                read_loop fuel' fs self' (yielded ++ [py.strip line])%list
            | Some EmptyString =>
                match stat_ino fs (path self') with
                | Some current_inode =>
                    if bool_decide (Some current_inode ≠ _inode self')
                    then
                      let closed_self := with_fd self' (Some (close_fd fd')) in
                      read_loop fuel' fs (open fs closed_self) yielded
                    else (yielded, self', Returned)
                | None => (yielded, self', Returned)
                end
            end
      end
  end.

(** [FileTailer.read], drained by its consumer. *)
Definition read (fuel : nat) (fs : FileSystem) (self : FileTailer)
  : list string * FileTailer * ending :=
  match _fd self with
  | Some _ => read_loop fuel fs self []
  | None =>
      let self' := open fs self in
      match _fd self' with
      | None => ([], self', Returned)
      | Some _ => read_loop fuel fs self' []
      end
  end.

(** [FileTailer.close] *)
Definition close (self : FileTailer) : FileTailer :=
  match _fd self with
  | Some _ => with_fd self None
  | None => self
  end.

Record LogWatcher := {
  tailers : gmap string FileTailer
}.

(** [LogWatcher.add_path] *)
Definition add_path (self : LogWatcher) (p : string) : LogWatcher :=
  if bool_decide (is_Some (tailers self !! p))
  then self
  else {| tailers := <[p := FileTailer_default p]> (tailers self) |}.

(** [LogWatcher.__init__] *)
Definition new_LogWatcher (paths : list string) : LogWatcher :=
  fold_left add_path paths {| tailers := ∅ |}.

(** The body of the [for path, tailer] loop of [watch] for one tailer:
    every non-empty line read becomes a [LogEvent]. [clock k] is what the
    [k]-th call of [time.time()] in the pass returns. *)
Fixpoint events_of (p : string) (lines : list string) (clock : nat -> Q) (k : nat)
  : list LogEvent :=
  match lines with
  | [] => []
  | line :: lines' =>
      match line with
      | EmptyString => events_of p lines' clock k
      | _ => {| source_path := p; content := line; timestamp := clock k |}
               :: events_of p lines' clock (S k)
      end
  end.

Definition poll_tailer (fuel : nat) (fs : FileSystem) (p : string)
    (tailer : FileTailer) (clock : nat -> Q)
  : list LogEvent * FileTailer * ending :=
  let '(lines, tailer', e) := read fuel fs tailer in
  (events_of p lines clock 0, tailer', e).

End watcher.

(** ** detector/pipeline.py: parser dispatch *)

Module pipeline.

(** The three concrete parsers and the [name] each passes to
    [LogParser.__init__]. *)
Inductive LogParser :=
| NginxParser
| SSHParser
| GenericParser.

Definition name (p : LogParser) : string :=
  match p with
  | NginxParser => "nginx"
  | SSHParser => "ssh"
  | GenericParser => "generic"
  end.

Section WithRegex.
Context {Pattern : Type}.

Record DetectionPipeline := {
  rules_path : string;
  parsers : gmap string LogParser;
  rule_engine : engine.RuleEngine Pattern
}.

(** [DetectionPipeline.__init__]; [loaded] is what [load_rules] finds on
    disk under [config.rules_path]. *)
Definition __init__ (config_rules_path : string) (loaded : list (engine.Rule Pattern))
  : DetectionPipeline :=
  {| rules_path := config_rules_path;
     parsers := <["nginx" := NginxParser]>
                  (<["ssh" := SSHParser]>
                     (<["generic" := GenericParser]> ∅));
     rule_engine := {| engine.rules_path := config_rules_path;
                       engine.rules := loaded;
                       engine.state := ∅ |} |}.

(** [self.parsers[key]] *)
Definition parsers_getitem (self : DetectionPipeline) (key : string) : py.res LogParser :=
  match parsers self !! key with
  | Some p => py.Ok p
  | None => py.Raise (py.KeyError key)
  end.

(** [DetectionPipeline._get_parser] *)
Definition _get_parser (self : DetectionPipeline) (path : string) : py.res LogParser :=
  if py.str_in "nginx" path then parsers_getitem self "nginx"
  else if py.str_in "auth.log" path || py.str_in "secure" path
       then parsers_getitem self "ssh"
       else parsers_getitem self "generic".

End WithRegex.

Arguments DetectionPipeline Pattern : clear implicits.

End pipeline.

(** ** store/database.py: the [threats] table *)

Module database.

(** The open connection: the rows of [threats], oldest insertion first. *)
Record Connection := {
  threats : list models.Threat
}.

Record ThreatStore := {
  db_path : string;
  _db : option Connection
}.

(** [ORDER BY created_at DESC]: [a] may come before [b] when the text of
    [b.created_at] is not above that of [a.created_at] in byte order. *)
Definition created_desc (a b : models.Threat) : Prop :=
  String.leb (models.created_at b) (models.created_at a) = true.

#[global] Instance created_desc_dec a b : Decision (created_desc a b).
Proof. unfold created_desc. apply _. Defined.

(** Rows with the same [created_at] stay in the order of their insertion,
    in which the index on [created_at] holds them: a row goes behind the
    rows that are strictly later and before every other. *)
Fixpoint insert_desc (row : models.Threat) (sorted : list models.Threat)
  : list models.Threat :=
  match sorted with
  | [] => [row]
  | r :: rest =>
      if String.ltb (models.created_at row) (models.created_at r)
      then r :: insert_desc row rest
      else row :: sorted
  end.

Definition order_by_created_at_desc (rows : list models.Threat) : list models.Threat :=
  foldr insert_desc [] rows.

(** [LIMIT ?]: a negative bound is no bound. *)
Definition sql_limit {A} (n : Z) (rows : list A) : list A :=
  if (n <? 0)%Z then rows else take (Z.to_nat n) rows.

(** A bound parameter must fit a signed 64-bit integer. *)
Definition fits_int64 (n : Z) : bool :=
  ((- 2 ^ 63 <=? n) && (n <? 2 ^ 63))%Z.

(** [ThreatStore.get_threats]; each fetched row is rebuilt into a
    [Threat] field by field. *)
Definition get_threats (self : ThreatStore) (limit : Z) : py.res (list models.Threat) :=
  match _db self with
  | None => py.Raise (py.AttributeError "execute")
  | Some db =>
      if fits_int64 limit
      then py.Ok (sql_limit limit (order_by_created_at_desc (threats db)))
      else py.Raise (py.OverflowError "Python int too large to convert to SQLite INTEGER")
  end.

(** [ThreatStore.save_threat]: one INSERT; [id] is the primary key. *)
Definition save_threat (self : ThreatStore) (threat : models.Threat) : py.res ThreatStore :=
  match _db self with
  | None => py.Raise (py.AttributeError "execute")
  | Some db =>
      if existsb (fun row => String.eqb (models.id row) (models.id threat)) (threats db)
      then py.Raise (py.IntegrityError "UNIQUE constraint failed: threats.id")
      else py.Ok {| db_path := db_path self;
                    _db := Some {| threats := (threats db ++ [threat])%list |} |}
  end.

End database.

(** ** Feeding an engine, and what it means for a rule to fire *)

Module driver.

Section WithRegex.
Context {Pattern Match : Type} `{Regex Pattern Match}.

(** The rule is not skipped and one of its patterns is found. *)
Definition fires (rule : engine.Rule Pattern) (event : base.ParsedEvent) : bool :=
  negb (engine.skipped rule event)
  && bool_decide (is_Some (engine.first_match (engine.patterns rule) (base.raw event))).

(** The event is matched by [rule]: it is the first rule of the list that
    fires on it. *)
Definition matched_by (rs : list (engine.Rule Pattern)) (rule : engine.Rule Pattern)
    (event : base.ParsedEvent) : Prop :=
  exists pre post,
    rs = (pre ++ rule :: post)%list
    /\ Forall (fun r => fires r event = false) pre
    /\ fires rule event = true.

(** Successive calls of [evaluate] on one engine, as the main loop makes
    them through [DetectionPipeline.analyze]; [envs k] is the draw of the
    [k]-th call. *)
Fixpoint feed (self : engine.RuleEngine Pattern) (events : list base.ParsedEvent)
    (envs : nat -> models.Env) (k : nat)
  : list (option models.Threat) * engine.RuleEngine Pattern :=
  match events with
  | [] => ([], self)
  | event :: events' =>
      let '(threat, self') := engine.evaluate self event (envs k) in
      let '(threats, self'') := feed self' events' envs (S k) in
      (threat :: threats, self'')
  end.

End WithRegex.

(** Which calls returned a threat. *)
Definition emissions (outs : list (option models.Threat)) : list bool :=
  map (fun out => match out with Some _ => true | None => false end) outs.

End driver.

(** The second of two threats that differ only in what the default
    factories drew. *)
Definition refreshed (env : models.Env) (t : models.Threat) : models.Threat :=
  {| models.source := models.source t;
     models.severity := models.severity t;
     models.type := models.type t;
     models.description := models.description t;
     models.attacker_ip := models.attacker_ip t;
     models.attacker_geo := models.attacker_geo t;
     models.raw_log := models.raw_log t;
     models.risk_score := models.risk_score t;
     models.rule_id := models.rule_id t;
     models.anomaly_score := models.anomaly_score t;
     models.llm_explanation := models.llm_explanation t;
     models.status := models.status t;
     models.id := models.default_id env;
     models.created_at := models.default_created_at env;
     models.resolved_at := models.resolved_at t;
     models.resolved_by := models.resolved_by t |}.

(** [needle] occurs in [hay] as a contiguous slice. *)
Definition Substring (needle hay : string) : Prop :=
  exists pre post, hay = pre +:+ needle +:+ post.

(** ** Concrete inputs used by the examples *)

Module fixtures.

(** Patterns without metacharacters: [search] is substring search and
    there are no named groups. *)
#[global] Instance literal_regex : Regex string unit := {
  search p s := if py.str_in p s then Some tt else None;
  groupdict _ := ∅
}.

Definition ssh_bf : engine.Rule string :=
  {| engine.id := "ssh-bf";
     engine.name := "SSH brute force";
     engine.description := "Repeated failed SSH logins";
     engine.severity := "HIGH";
     engine.source := "ssh";
     engine.patterns := ["Failed password for"];
     engine.threshold := 3;
     engine.window := 60 |}.

Definition the_engine : engine.RuleEngine string :=
  {| engine.rules_path := "/etc/sentinel/rules";
     engine.rules := [ssh_bf];
     engine.state := ∅ |}.

Definition failed_login (t : Z) : base.ParsedEvent :=
  {| base.source := "ssh";
     base.timestamp := inject_Z t;
     base.raw := "Oct 10 13:55:36 host sshd[123]: Failed password for invalid user root from 10.0.0.5 port 55555 ssh2";
     base.data := <["user" := "root"]> (<["ip" := "10.0.0.5"]> ∅);
     base.type := "auth" |}.

Definition four_matches : list base.ParsedEvent :=
  [failed_login 0; failed_login 10; failed_login 20; failed_login 30].

Definition env_of (n : nat) : models.Env :=
  {| models.uuid4_int := N.of_nat n * 2 ^ 80;
     models.now_isoformat := "2024-01-01T00:00:00.000000" |}.

(** Rotation: [/tmp/x.log] was inode 1; after
    [mv x.log x.log.1; touch x.log; echo hello >> x.log] it is inode 2. *)
Definition x_log : string := "/tmp/x.log".

Definition nl : string := String watcher.newline EmptyString.

Definition fs_before : watcher.FileSystem :=
  {| watcher.dirents := <[x_log := 1%N]> ∅;
     watcher.inodes := <[1%N := "started" +:+ nl]> ∅;
     watcher.decode_error := fun _ _ => None |}.

Definition fs_after : watcher.FileSystem :=
  {| watcher.dirents := <[x_log := 2%N]> (<["/tmp/x.log.1" := 1%N]> ∅);
     watcher.inodes := <[2%N := "hello" +:+ nl]> (<[1%N := "started" +:+ nl]> ∅);
     watcher.decode_error := fun _ _ => None |}.

(** The tailer [add_path] registers, opened by [watch] before the
    rotation, and the same tailer constructed with [start_at_end=False]. *)
Definition tailer_at_eof : watcher.FileTailer :=
  watcher.open fs_before (watcher.FileTailer_default x_log).

Definition tailer_from_start : watcher.FileTailer :=
  snd (fst (watcher.read 4 fs_before (watcher.new_FileTailer x_log false))).

Definition clock (k : nat) : Q := inject_Z (1700000000 + Z.of_nat k).

(** IPC: a table with the two method names of [SentinelAgent]. The
    handlers stand in for the agent's: "status" answers as the agent does
    while no path is watched; "threats" answers as over an empty store and,
    like the agent's, raises when [params] has no [get]. *)
Definition handle_status (params : json.value) : ipc.outcome :=
  ipc.Returns (json.Obj (<["status" := json.Str "running"]>
                          (<["uptime" := json.Str "TODO"]>
                             (<["monitored_files" := json.Arr []]> ∅)))).

Definition handle_threats (params : json.value) : ipc.outcome :=
  match params with
  | json.Obj _ => ipc.Returns (json.Arr [])
  | _ => ipc.Raises ("'" +:+ json.type_name params +:+ "' object has no attribute 'get'")
  end.

Definition server : ipc.IPCServer :=
  {| ipc.socket_path := "/var/run/sentinel/sentinel.sock";
     ipc.handlers := <["status" := handle_status]> (<["threats" := handle_threats]> ∅) |}.

Definition request_nope : gmap string json.value :=
  <["jsonrpc" := json.Str "2.0"]>
    (<["method" := json.Str "nope"]>
       (<["params" := json.Obj ∅]>
          (<["id" := json.Str "a"]> ∅))).

Definition request_threats_bad_params : gmap string json.value :=
  <["jsonrpc" := json.Str "2.0"]>
    (<["method" := json.Str "threats"]>
       (<["params" := json.Int 5]>
          (<["id" := json.Int 7]> ∅))).

Definition request_list_method : gmap string json.value :=
  <["jsonrpc" := json.Str "2.0"]>
    (<["method" := json.Arr []]>
       (<["id" := json.Int 1]> ∅)).

Definition request_empty : gmap string json.value := ∅.

(** Store: threats that differ in [created_at] only. *)
Definition threat_at (ident created : string) : models.Threat :=
  {| models.source := "ssh"; models.severity := "HIGH";
     models.type := "rule_match"; models.description := "Repeated failed SSH logins";
     models.attacker_ip := None; models.attacker_geo := None;
     models.raw_log := None; models.risk_score := 0.8%Q;
     models.rule_id := Some "ssh-bf"; models.anomaly_score := None;
     models.llm_explanation := None; models.status := "open";
     models.id := ident; models.created_at := created;
     models.resolved_at := None; models.resolved_by := None |}.

Definition store : database.ThreatStore :=
  {| database.db_path := "/var/lib/sentinel/sentinel.db";
     database._db := Some {| database.threats :=
       [ threat_at "THR-000000000001" "2024-01-01T10:00:00";
         threat_at "THR-000000000002" "2024-01-03T10:00:00";
         threat_at "THR-000000000003" "2024-01-02T10:00:00" ] |} |}.

End fixtures.

(** * Further inputs for the examples *)

Module samples.

(** [/tmp/x.log] opened for reading from its start, before any read. *)
Definition tailer_started : watcher.FileTailer :=
  watcher.open fixtures.fs_before (watcher.new_FileTailer fixtures.x_log false).

(** The same file after [echo next >> x.log]. *)
Definition fs_appended : watcher.FileSystem :=
  {| watcher.dirents := <[fixtures.x_log := 1%N]> ∅;
     watcher.inodes := <[1%N := "started" +:+ fixtures.nl +:+ "next" +:+ fixtures.nl]> ∅;
     watcher.decode_error := fun _ _ => None |}.

(** The path rotated to an inode that [open] fails on. *)
Definition fs_unreadable : watcher.FileSystem :=
  {| watcher.dirents := <[fixtures.x_log := 3%N]> ∅;
     watcher.inodes := <[1%N := "started" +:+ fixtures.nl]> ∅;
     watcher.decode_error := fun _ _ => None |}.


End samples.

(** * Helpers for stating the further properties *)

Module aux.

(** A newline can only be the last character. *)
Fixpoint newline_only_last (s : string) : bool :=
  match s with
  | EmptyString => true
  | String c s' =>
      if Ascii.eqb c watcher.newline
      then match s' with EmptyString => true | _ => false end
      else newline_only_last s'
  end.

(** No character is a newline. *)
Definition no_newline (s : string) : bool :=
  models.all_chars (fun c => negb (Ascii.eqb c watcher.newline)) s.

(** The first character is white space; the last character is. *)
Definition starts_with_space (s : string) : bool :=
  match s with
  | EmptyString => false
  | String c _ => py.isspace c
  end.

Fixpoint ends_with_space (s : string) : bool :=
  match s with
  | EmptyString => false
  | String c EmptyString => py.isspace c
  | String _ s' => ends_with_space s'
  end.

End aux.

Module samples2.

(** Encodings of a session whose lines are all short, and of one whose
    lines are all longer than the stream limit. *)
Definition short_lines (v : json.value) : N := 64.

Definition long_lines (v : json.value) : N := 70000.

(** A login line as another parser pass could present it: later
    timestamp, another type tag, further fields. *)
Definition failed_login_other_view : base.ParsedEvent :=
  {| base.source := "ssh";
     base.timestamp := inject_Z 99;
     base.raw := base.raw (fixtures.failed_login 0);
     base.data := <["ip" := "10.0.0.5"]> (<["port" := "55555"]> ∅);
     base.type := "other" |}.

(** Two UUIDs with the same 48 leading bits, and one with others. *)
Definition env_low (low : N) : models.Env :=
  {| models.uuid4_int := 7 * 2 ^ 80 + low;
     models.now_isoformat := "2024-01-01T00:00:00.000000" |}.

Definition latest : models.Threat :=
  fixtures.threat_at "THR-000000000004" "2024-01-04T10:00:00".

End samples2.

(** * Further parts of the agent and its client *)

(** ** cli/sentinel_cli/client.py *)

Module client.

(** What [IPCClient.call] can raise. [RuntimeError] carries the value the
    server sent as the error message. [ConnectionDropped] stands for what
    the client gets when the server gave up on a request line it could not
    take and closed the connection: [IncompleteReadError] at the end of the
    stream, or the error of a reset connection when part of the request
    was left unread. *)
Inductive error :=
| ConnectionError (msg : string)
| RuntimeError (message : json.value)
| IncompleteReadError
| LimitOverrunError
| ConnectionDropped
| KeyError (key : string)
| TypeError (msg : string).

Inductive res (A : Type) :=
| Return (a : A)
| Raise (e : error).
Arguments Return {A} a.
Arguments Raise {A} e.

(** The request [call] writes; [params or {}] replaces [None] (and an empty
    dict) by an empty dict. *)
Definition request_of (method : string) (params : option (gmap string json.value))
  : gmap string json.value :=
  <["jsonrpc" := json.Str "2.0"]>
    (<["method" := json.Str method]>
       (<["params" := json.Obj (default ∅ params)]>
          (<["id" := json.Int 1]> ∅))).

(** What [call] makes of the decoded response. *)
Definition read_response (response : gmap string json.value) : res json.value :=
  match response !! "error" with
  | Some (json.Obj err) =>
      match err !! "message" with
      | Some message => Raise (RuntimeError message)
      | None => Raise (KeyError "message")
      end
  | Some (json.Arr _) => Raise (TypeError "list indices must be integers or slices, not str")
  | Some (json.Str _) => Raise (TypeError "string indices must be integers, not 'str'")
  | Some other =>
      Raise (TypeError ("'" +:+ json.type_name other +:+ "' object is not subscriptable"))
  | None => Return (json.get response "result")
  end.

(** The [limit] of the streams [asyncio.start_unix_server] and
    [asyncio.open_unix_connection] create by default, [2 ** 16]:
    [readuntil] raises [LimitOverrunError] when more bytes than this come
    before the separator. *)
Definition STREAM_LIMIT : N := 65536.

Section WithEncoding.

(** [len(json.dumps(v).encode())]: the length of the line written for [v],
    without its newline. *)
Variable encoded_length : json.value -> N.

(** [readuntil(b"\n")] takes the line written for [message]. *)
Definition fits (message : gmap string json.value) : bool :=
  (encoded_length (json.Obj message) <=? STREAM_LIMIT)%N.

(** [IPCClient.call] against a running server. A line that fits is decoded
    by the server into the request it was encoded from, and the response
    likewise by the client. On a request line that does not fit the
    server's [readuntil] raises, [handle_client] logs it and closes the
    connection; a request [process_request] raises on closes the connection
    as well, after the line was read. On a response line that does not fit
    the client's [readuntil] raises. *)
Definition call (socket_exists : bool) (socket_path : string) (server : ipc.IPCServer)
    (method : string) (params : option (gmap string json.value)) : res json.value :=
  if negb socket_exists
  then Raise (ConnectionError ("Agent socket not found at " +:+ socket_path
                               +:+ ". Is the agent running?"))
  else
    let request := request_of method params in
    if negb (fits request) then Raise ConnectionDropped
    else
      match ipc.process_request server request with
      | py.Raise _ => Raise IncompleteReadError
      | py.Ok response =>
          if negb (fits response) then Raise LimitOverrunError
          else read_response response
      end.

End WithEncoding.

End client.

(** ** parser/generic.py, parser/ssh.py, parser/nginx.py *)

Module pystr.

(** [s.split()]: the maximal runs of characters that are not white
    space, in order. *)
Fixpoint split (s : string) : list string :=
  match s with
  | EmptyString => []
  | String c s' =>
      if py.isspace c then split s'
      else
        match s' with
        | EmptyString => [String c EmptyString]
        | String c' _ =>
            if py.isspace c' then String c EmptyString :: split s'
            else
              match split s' with
              | [] => [String c EmptyString]
              | word :: words => String c word :: words
              end
        end
  end.

Definition no_space (s : string) : bool :=
  models.all_chars (fun c => negb (py.isspace c)) s.

End pystr.

(** [pattern.match(s)]: a match that starts at the first character of
    [s], or [None]. *)
Class RegexMatch (Pattern Match : Type) := {
  match_ : Pattern -> string -> option Match
}.

Module parser.

Section WithRegex.
Context {Pattern Match : Type} `{Regex Pattern Match} `{RegexMatch Pattern Match}.

(** The compiled expressions the parsers hold: [SSHParser.patterns]
    (failed password, disconnect before authentication, accepted
    password, in this order) and the module's [COMBINED_LOG_PATTERN]. *)
Record Compiled := {
  ssh_patterns : list Pattern;
  COMBINED_LOG_PATTERN : Pattern
}.

(** The fields of an event, from a [groupdict]. Every use of
    [ParsedEvent.data] is a [get], which reads a group bound to [None]
    like an absent one; such a group is left out. *)
Definition to_data (groups : gmap string (option string)) : gmap string string :=
  omap id groups.

(** [GenericParser.parse] *)
Definition generic_parse (line : string) (timestamp : Q) : option base.ParsedEvent :=
  Some {| base.source := "generic";
          base.timestamp := timestamp;
          base.raw := line;
          base.data := {["message" := line]};
          base.type := "generic" |}.

(** The loop of [SSHParser.parse]: the [groupdict] of the first pattern
    found in the line, or the empty dict. *)
Fixpoint first_groupdict (ps : list Pattern) (line : string)
  : gmap string (option string) :=
  match ps with
  | [] => ∅
  | pattern :: ps' =>
      match search pattern line with
      | Some m => groupdict m
      | None => first_groupdict ps' line
      end
  end.

(** [SSHParser.parse] *)
Definition ssh_parse (c : Compiled) (line : string) (timestamp : Q)
  : option base.ParsedEvent :=
  if negb (py.str_in "sshd[" line) then None
  else
    let event_data := first_groupdict (ssh_patterns c) line in
    if bool_decide (event_data = ∅) then None
    else Some {| base.source := "ssh";
                 base.timestamp := timestamp;
                 base.raw := line;
                 base.data := to_data event_data;
                 base.type := "auth" |}.

(** [data.get("request", empty)] with the empty string as default, on
    which [split] is then called. *)
Definition request_of (data : gmap string (option string)) : py.res string :=
  match data !! "request" with
  | None => py.Ok EmptyString
  | Some (Some request) => py.Ok request
  | Some None =>
      py.Raise (py.AttributeError "split")
  end.

(** [NginxParser.parse] *)
Definition nginx_parse (c : Compiled) (line : string) (timestamp : Q)
  : py.res (option base.ParsedEvent) :=
  match match_ (COMBINED_LOG_PATTERN c) line with
  | None => py.Ok None
  | Some m =>
      let data := groupdict m in
      match request_of data with
      | py.Raise e => py.Raise e
      | py.Ok request =>
          let request_parts := pystr.split request in
          let data' :=
            match request_parts with
            | method :: path :: rest =>
                <["protocol" := match rest with
                                | protocol :: _ => protocol
                                | [] => EmptyString
                                end]>
                  (<["path" := path]> (<["method" := method]> (to_data data)))
            | _ => to_data data
            end in
          py.Ok (Some {| base.source := "nginx";
                         base.timestamp := timestamp;
                         base.raw := line;
                         base.data := data';
                         base.type := "access" |})
      end
  end.

(** [parser.parse(line, timestamp)], by the class of the parser. *)
Definition parse (c : Compiled) (p : pipeline.LogParser) (line : string)
    (timestamp : Q) : py.res (option base.ParsedEvent) :=
  match p with
  | pipeline.NginxParser => nginx_parse c line timestamp
  | pipeline.SSHParser => py.Ok (ssh_parse c line timestamp)
  | pipeline.GenericParser => py.Ok (generic_parse line timestamp)
  end.

(** [DetectionPipeline.analyze]. [now] is the reading of [time.time()];
    the parser is selected before the [try], everything after it is inside.
    The rule engine is left as it was by [evaluate]. *)
Definition analyze (c : Compiled) (self : pipeline.DetectionPipeline Pattern)
    (source_path log_line : string) (now : Q) (env : models.Env)
  : py.res (option models.Threat) :=
  match pipeline._get_parser self source_path with
  | py.Raise e => py.Raise e
  | py.Ok p =>
      match parse c p log_line now with
      | py.Raise _ => py.Ok None
      | py.Ok None => py.Ok None
      | py.Ok (Some event) =>
          py.Ok (fst (engine.evaluate (pipeline.rule_engine self) event env))
      end
  end.

End WithRegex.

Arguments Compiled Pattern : clear implicits.

End parser.

Module samples3.

(** Expressions that answer with a fixed [groupdict] when their needle is
    found: enough to run the parsers on concrete lines. *)
Record canned := {
  needle : string;
  groups : gmap string (option string)
}.

#[global] Instance canned_regex : Regex canned (gmap string (option string)) := {
  search p s := if py.str_in (needle p) s then Some (groups p) else None;
  groupdict m := m
}.

#[global] Instance canned_match : RegexMatch canned (gmap string (option string)) := {
  match_ p s := if py.startswith s (needle p) then Some (groups p) else None
}.

Definition compiled : parser.Compiled canned :=
  {| parser.ssh_patterns :=
       [ {| needle := "Failed password for";
            groups := <["user" := Some "root"]> (<["ip" := Some "10.0.0.5"]> ∅) |} ];
     parser.COMBINED_LOG_PATTERN :=
       {| needle := "127.0.0.1 - - [";
          groups := <["remote_addr" := Some "127.0.0.1"]>
                      (<["request" := Some "GET /index.html HTTP/1.0"]>
                         (<["status" := Some "200"]> ∅)) |} |}.

Definition any_rule : engine.Rule canned :=
  {| engine.id := "any-fail";
     engine.name := "Any failure";
     engine.description := "A failure was logged";
     engine.severity := "LOW";
     engine.source := "any";
     engine.patterns := [ {| needle := "Failed"; groups := ∅ |} ];
     engine.threshold := 1;
     engine.window := 60 |}.

Definition the_pipeline : pipeline.DetectionPipeline canned :=
  pipeline.__init__ "/etc/sentinel/rules" [any_rule].

Definition dq : string := String (ascii_of_nat 34) EmptyString.

Definition nginx_line : string :=
  "127.0.0.1 - - [10/Oct/2020:13:55:36 -0700] " +:+ dq +:+ "GET /index.html HTTP/1.0"
  +:+ dq +:+ " 200 2326 " +:+ dq +:+ "-" +:+ dq +:+ " " +:+ dq +:+ "curl/7.0" +:+ dq.

End samples3.

(** ** collector/discovery.py *)

Module discovery.

Definition DISCOVERY_MAP : list (string * list string) :=
  [ ("ssh", ["/var/log/auth.log"; "/var/log/secure"]);
    ("nginx", ["/var/log/nginx/access.log"; "/var/log/nginx/error.log"]);
    ("apache", ["/var/log/apache2/access.log"; "/var/log/httpd/access_log"]);
    ("system", ["/var/log/syslog"; "/var/log/messages"]);
    ("kernel", ["/var/log/kern.log"]);
    ("firewall", ["/var/log/ufw.log"]) ].

Section WithFileSystem.

(** [Path(p).exists()] *)
Variable path_exists : string -> bool.

(** What the glob branch adds for a candidate that contains a star: the
    paths [parent.glob(pattern)] finds, nothing when the parent directory
    does not exist. *)
Variable glob_found : string -> list string.

(** One pass of the inner loop. The candidates are normalised absolute
    paths, which [str(Path(p))] gives back unchanged. *)
Definition found_for (path_str : string) : list string :=
  if py.str_in "*" path_str then glob_found path_str
  else if path_exists path_str then [path_str] else [].

Definition found_paths (paths : list string) : list string :=
  concat (map found_for paths).

(** The outer loop over the items of a map. *)
Fixpoint discover_in (m : list (string * list string)) : list (string * list string) :=
  match m with
  | [] => []
  | (log_type, paths) :: m' =>
      match found_paths paths with
      | [] => discover_in m'
      | found => (log_type, found) :: discover_in m'
      end
  end.

(** [LogDiscovery.discover] and [perform_discovery]: the items of the
    returned dict, in insertion order. *)
Definition discover : list (string * list string) := discover_in DISCOVERY_MAP.

Definition perform_discovery : list (string * list string) := discover.

End WithFileSystem.

End discovery.

(** ** main.py: what [SentinelAgent] does with the parts *)

Module main.

(** [config.schema.LogSource] *)
Record LogSource := {
  path : string;
  type : string;
  enabled : bool
}.

(** The two registration loops of [run]. [logs] is what
    [perform_discovery()] returned. *)
Definition add_discovered (logs : list (string * list string))
    (w : watcher.LogWatcher) : watcher.LogWatcher :=
  fold_left (fun w item => fold_left watcher.add_path (snd item) w) logs w.

Definition add_configured (sources : list LogSource)
    (w : watcher.LogWatcher) : watcher.LogWatcher :=
  fold_left (fun w source => if enabled source
                             then watcher.add_path w (path source) else w)
    sources w.

Definition register_paths (logs_discovery : bool) (logs : list (string * list string))
    (sources : list LogSource) (w : watcher.LogWatcher) : watcher.LogWatcher :=
  add_configured sources (if logs_discovery then add_discovered logs w else w).

(** [str(e)] for the exceptions of the store. An [AttributeError] of the
    embedding names the attribute that was looked up on [None]. *)
Definition str_exn (e : py.exn) : string :=
  match e with
  | py.TypeError msg | py.ValueError msg | py.OverflowError msg
  | py.IntegrityError msg => msg
  | py.AttributeError attr => "'NoneType' object has no attribute '" +:+ attr +:+ "'"
  | py.KeyError key => "'" +:+ key +:+ "'"
  end.

(** One element of the list [handle_threats] returns. *)
Definition summary (t : models.Threat) : json.value :=
  json.Obj (<["id" := json.Str (models.id t)]>
              (<["severity" := json.Str (models.severity t)]>
                 (<["source" := json.Str (models.source t)]>
                    (<["description" := json.Str (models.description t)]>
                       (<["created_at" := json.Str (models.created_at t)]> ∅))))).

Section Handlers.

(** How the database driver reads a bound value that is not an [int] as
    the bound of [LIMIT], or the exception it raises on it. *)
Variable coerce_limit : json.value -> py.res Z.

(** The integer bound to [LIMIT ?]: an [int] as it is, a [bool] as 0 or 1. *)
Definition limit_of (limit : json.value) : py.res Z :=
  match limit with
  | json.Int n => py.Ok n
  | json.Bool b => py.Ok (if b then 1 else 0)%Z
  | other => coerce_limit other
  end.

(** [SentinelAgent.handle_threats], awaited. *)
Definition handle_threats (store : database.ThreatStore) (params : json.value)
  : ipc.outcome :=
  match params with
  | json.Obj m =>
      let limit := json.get_default m "limit" (json.Int 10) in
      match limit_of limit with
      | py.Raise e => ipc.Raises (str_exn e)
      | py.Ok n =>
          match database.get_threats store n with
          | py.Raise e => ipc.Raises (str_exn e)
          | py.Ok threats => ipc.Returns (json.Arr (map summary threats))
          end
      end
  | _ =>
      ipc.Raises ("'" +:+ json.type_name params +:+ "' object has no attribute 'get'")
  end.

End Handlers.

End main.

Module samples4.

Definition existing (p : string) : bool :=
  String.eqb p "/var/log/auth.log" || String.eqb p "/var/log/syslog".

Definition no_glob (p : string) : list string := [].

Definition sources : list main.LogSource :=
  [ {| main.path := "/srv/app/app.log"; main.type := "generic"; main.enabled := true |};
    {| main.path := "/srv/app/debug.log"; main.type := "generic"; main.enabled := false |};
    {| main.path := "/var/log/syslog"; main.type := "system"; main.enabled := true |} ].

Definition refuse (v : json.value) : py.res Z := py.Raise (py.TypeError "datatype mismatch").

End samples4.

(** ** detector/rules/engine.py: loading rules *)

(** [re.compile(text)] on a [str]: the compiled expression, [re.error], or
    another exception (as [RecursionError] on deep nesting). *)
Inductive compilation (Pattern : Type) :=
| Compiled (p : Pattern)
| ReError
| OtherError (e : py.exn).
Arguments Compiled {Pattern} p.
Arguments ReError {Pattern}.
Arguments OtherError {Pattern} e.

Class RegexCompile (Pattern : Type) := {
  compile : string -> compilation Pattern
}.

Module rule_file.

(** What [yaml.safe_load] returns for a rule file is a [json.value]: the
    documents of the JSON data model (null, booleans, numbers, strings,
    sequences, mappings with string keys). Nothing is assumed about the
    types of the values. *)

(** What one rule file adds to [self.rules]. [Untyped] is a [Rule] object
    some field of which does not hold a value of the type the dataclass
    declares (as [id: 5]); [engine.Rule] has no value for it. *)
Inductive contribution (Pattern : Type) :=
| NoRule
| OneRule (rule : engine.Rule Pattern)
| Untyped.
Arguments NoRule {Pattern}.
Arguments OneRule {Pattern} rule.
Arguments Untyped {Pattern}.

Definition as_str (v : json.value) : option string :=
  match v with
  | json.Str text => Some text
  | _ => None
  end.

Definition as_int (v : json.value) : option Z :=
  match v with
  | json.Int n => Some n
  | _ => None
  end.

(** [for cond in v]: the elements of a sequence, the keys of a mapping,
    the characters of a string. The keys come in an order of the
    embedding's; what the loop of [from_dict] makes of them does not depend
    on it. *)
Definition iterate (v : json.value) : py.res (list json.value) :=
  match v with
  | json.Arr l => py.Ok l
  | json.Obj m => py.Ok (map json.Str (map fst (map_to_list m)))
  | json.Str text =>
      py.Ok (map (fun c => json.Str (String c EmptyString)) (list_ascii_of_string text))
  | _ => py.Raise (py.TypeError ("'" +:+ json.type_name v +:+ "' object is not iterable"))
  end.

(** The test ["pattern" in cond] and, where it holds, [cond["pattern"]]:
    [Ok None] when the test fails. On a mapping the test is for the key, on
    a string for the substring, on a sequence for the element. *)
Definition pattern_of (cond : json.value) : py.res (option json.value) :=
  match cond with
  | json.Obj c => py.Ok (c !! "pattern")
  | json.Str text =>
      if py.str_in "pattern" text
      then py.Raise (py.TypeError "string indices must be integers, not 'str'")
      else py.Ok None
  | json.Arr l =>
      if existsb (fun v => match v with
                           | json.Str text => String.eqb text "pattern"
                           | _ => false
                           end) l
      then py.Raise (py.TypeError "list indices must be integers or slices, not str")
      else py.Ok None
  | _ =>
      py.Raise (py.TypeError ("argument of type '" +:+ json.type_name cond
                              +:+ "' is not iterable"))
  end.

Section WithRegex.
Context {Pattern : Type} `{RegexCompile Pattern}.

(** [re.compile(v)] under [except re.error]: the patterns to append (none
    when the expression does not compile, which is logged), or the
    exception that leaves the loop. *)
Definition compile_value (v : json.value) : py.res (list Pattern) :=
  match v with
  | json.Str text =>
      match compile text with
      | Compiled p => py.Ok [p]
      | ReError => py.Ok []
      | OtherError e => py.Raise e
      end
  | json.Arr _ | json.Obj _ =>
      py.Raise (py.TypeError ("unhashable type: '" +:+ json.type_name v +:+ "'"))
  | _ => py.Raise (py.TypeError "first argument must be string or compiled pattern")
  end.

(** The loop of [from_dict] over the conditions. *)
Fixpoint compile_conditions (conds : list json.value) : py.res (list Pattern) :=
  match conds with
  | [] => py.Ok []
  | cond :: conds' =>
      match pattern_of cond with
      | py.Raise e => py.Raise e
      | py.Ok None => compile_conditions conds'
      | py.Ok (Some v) =>
          match compile_value v with
          | py.Raise e => py.Raise e
          | py.Ok compiled =>
              match compile_conditions conds' with
              | py.Raise e => py.Raise e
              | py.Ok patterns => py.Ok (compiled ++ patterns)%list
              end
          end
      end
  end.

(** The call of [cls(...)] with the values read: the rule, when each value
    has the declared type. *)
Definition make_rule (rule_id name description severity source : json.value)
    (patterns : list Pattern) (threshold window : json.value)
  : contribution Pattern :=
  match as_str rule_id, as_str name, as_str description, as_str severity,
        as_str source, as_int threshold, as_int window with
  | Some i, Some n, Some d, Some sev, Some src, Some t, Some w =>
      OneRule {| engine.id := i;
                 engine.name := n;
                 engine.description := d;
                 engine.severity := sev;
                 engine.source := src;
                 engine.patterns := patterns;
                 engine.threshold := t;
                 engine.window := w |}
  | _, _, _, _, _, _, _ => Untyped
  end.

(** [Rule.from_dict] *)
Definition from_dict (data : json.value) : py.res (contribution Pattern) :=
  match data with
  | json.Obj m =>
      match iterate (json.get_default m "conditions" (json.Arr [])) with
      | py.Raise e => py.Raise e
      | py.Ok conds =>
          match compile_conditions conds with
          | py.Raise e => py.Raise e
          | py.Ok patterns =>
              match m !! "id" with
              | None => py.Raise (py.KeyError "id")
              | Some rule_id =>
                  match m !! "name" with
                  | None => py.Raise (py.KeyError "name")
                  | Some rule_name =>
                      match json.get_default m "aggregation" (json.Obj ∅) with
                      | json.Obj agg =>
                          py.Ok (make_rule rule_id rule_name
                                   (json.get_default m "description" (json.Str EmptyString))
                                   (json.get_default m "severity" (json.Str "MEDIUM"))
                                   (json.get_default m "log_source" (json.Str "any"))
                                   patterns
                                   (json.get_default agg "threshold" (json.Int 1))
                                   (json.get_default agg "window" (json.Int 60)))
                      | _ => py.Raise (py.AttributeError "get")
                      end
                  end
              end
          end
      end
  | _ => py.Raise (py.AttributeError "get")
  end.




End WithRegex.

End rule_file.

(** Shapes of rule files, for stating what loading does with them. *)
Module rule_shape.

Definition absent_or (ok : json.value -> bool) (v : option json.value) : bool :=
  match v with
  | None => true
  | Some v => ok v
  end.

Definition is_str (v : json.value) : bool :=
  match v with json.Str _ => true | _ => false end.

Definition is_int (v : json.value) : bool :=
  match v with json.Int _ => true | _ => false end.

Definition is_mapping (v : json.value) : bool :=
  match v with json.Obj _ => true | _ => false end.


(** The values present under the fields of the dataclass have the types
    it declares. *)
Definition declared_types (data : json.value) : bool :=
  match data with
  | json.Obj m =>
      absent_or is_str (m !! "id") && absent_or is_str (m !! "name")
      && absent_or is_str (m !! "description")
      && absent_or is_str (m !! "severity")
      && absent_or is_str (m !! "log_source")
      && match m !! "aggregation" with
         | Some (json.Obj agg) =>
             absent_or is_int (agg !! "threshold") && absent_or is_int (agg !! "window")
         | _ => true
         end
  | _ => true
  end.

(** The expression a condition holds: the string under [pattern] of a
    mapping. *)
Definition expression (cond : json.value) : option string :=
  match cond with
  | json.Obj c => c !! "pattern" ≫= rule_file.as_str
  | _ => None
  end.

(** The [id] of a document, when it is a string. *)
Definition rule_id (data : json.value) : option string :=
  match data with
  | json.Obj m => m !! "id" ≫= rule_file.as_str
  | _ => None
  end.

(** A condition as rule files write it: a mapping without [pattern] or
    with a string under it. *)
Definition plain_condition (cond : json.value) : bool :=
  match cond with
  | json.Obj c => absent_or is_str (c !! "pattern")
  | _ => false
  end.



Section WithRegex.
Context {Pattern : Type} `{RegexCompile Pattern}.

(** The expression compiles or is refused with [re.error]. *)
Definition compiles_or_refused (cond : json.value) : bool :=
  match expression cond with
  | Some text => match compile text with OtherError _ => false | _ => true end
  | None => true
  end.

(** What the expression of a condition compiles to. *)
Definition compiled_expression (cond : json.value) : option Pattern :=
  match expression cond with
  | Some text => match compile text with Compiled p => Some p | _ => None end
  | None => None
  end.

(** A document as rule files are written: a mapping with [id] and [name];
    [conditions], when present, a sequence of plain conditions whose
    expressions compile or are refused; [aggregation], when present, a
    mapping. *)
Definition well_formed (data : json.value) : bool :=
  match data with
  | json.Obj m =>
      bool_decide (is_Some (m !! "id")) && bool_decide (is_Some (m !! "name"))
      && match m !! "conditions" with
         | Some (json.Arr l) => forallb plain_condition l && forallb compiles_or_refused l
         | Some _ => false
         | None => true
         end
      && absent_or is_mapping (m !! "aggregation")
  | _ => false
  end.

End WithRegex.

End rule_shape.

Module samples5.

(** Literal expressions compile unless they hold an unbalanced
    parenthesis. *)
#[global] Instance literal_compile : RegexCompile string := {
  compile text := if py.str_in "(" text then ReError else Compiled text
}.

(** A rule with one good expression, one that does not compile and one
    condition without expression. *)
Definition good : json.value :=
  json.Obj
    (<["id" := json.Str "ssh-bf"]>
       (<["name" := json.Str "SSH brute force"]>
          (<["severity" := json.Str "HIGH"]>
             (<["log_source" := json.Str "ssh"]>
                (<["conditions" :=
                     json.Arr [ json.Obj (<["pattern" := json.Str "Failed password for"]> ∅);
                                json.Obj (<["pattern" := json.Str "broken ("]> ∅);
                                json.Obj (<["type" := json.Str "regex"]> ∅) ]]> ∅))))).





End samples5.

(** * Properties *)

(** ** IPC request processing *)

Section IPC.
Import ipc.

Lemma error_response_lookup code message msg_id :
  error_response code message msg_id !! "jsonrpc" = Some (json.Str "2.0")
  /\ error_response code message msg_id !! "id" = Some msg_id
  /\ error_response code message msg_id !! "error" = Some (error_object code message)
  /\ error_response code message msg_id !! "result" = None.
Proof. unfold error_response. by simplify_map_eq. Qed.

Lemma result_response_lookup result msg_id :
  result_response result msg_id !! "jsonrpc" = Some (json.Str "2.0")
  /\ result_response result msg_id !! "id" = Some msg_id
  /\ result_response result msg_id !! "result" = Some result
  /\ result_response result msg_id !! "error" = None.
Proof. unfold result_response. by simplify_map_eq. Qed.

Lemma error_object_lookup code message :
  exists m, error_object code message = json.Obj m
            /\ m !! "code" = Some (json.Int code)
            /\ m !! "message" = Some (json.Str message)
            /\ dom m = {["code"; "message"]}.
Proof.
  unfold error_object. eexists. split; [reflexivity|].
  split_and!; [by simplify_map_eq ..|].
  rewrite !dom_insert_L, dom_empty_L. set_solver.
Qed.

(** The membership test answers; it raises exactly on a list or a dict. *)
Lemma contains_hashable (self : IPCServer) (method : json.value) :
  json.hashable method = true <-> exists b, contains self method = py.Ok b.
Proof.
  destruct method; simpl; split; intros Hh; try done; eauto;
    destruct Hh as [b Hb]; discriminate.
Qed.

(** The test [method not in self.handlers] holds exactly for a hashable
    method that is no key of the table. *)
Lemma contains_false_iff (self : IPCServer) (method : json.value) :
  contains self method = py.Ok false <->
  json.hashable method = true
  /\ (forall s, method = json.Str s -> handlers self !! s = None).
Proof.
  destruct method as [| b | n | bits | s | l | m]; simpl;
    try (split; [intros _; split; [done | by intros s' [=]] | done]);
    try (split; [done | by intros [[=] _]]).
  split.
  - intros [= Hb]. apply bool_decide_eq_false_1 in Hb. split; [done|].
    intros s' [= <-]. by apply eq_None_not_Some.
  - intros [_ Hnone]. f_equal. apply bool_decide_eq_false_2.
    rewrite (Hnone s eq_refl). by intros [? ?].
Qed.

(** C5: a request whose method is not a key of the handler table (the test
    [method not in self.handlers] holds) is answered with the error
    response: code -32601, message "Method not found", and the id of the
    request echoed as it came. *)
Theorem process_request_method_not_found
    (self : IPCServer) (request : gmap string json.value) :
  contains self (json.get request "method") = py.Ok false ->
  process_request self request
    = py.Ok (error_response (-32601) "Method not found" (json.get request "id"))
  /\ (forall response, process_request self request = py.Ok response ->
        response !! "jsonrpc" = Some (json.Str "2.0")
        /\ response !! "error" = Some (error_object (-32601) "Method not found")
        /\ response !! "id" = Some (json.get request "id")
        /\ response !! "result" = None).
Proof.
  intros Hnot. unfold process_request. rewrite Hnot. split; [done|].
  intros response [= <-].
  destruct (error_response_lookup (-32601) "Method not found"
              (json.get request "id")) as (? & ? & ? & ?).
  done.
Qed.

(** The literal exchange of the specification: method "nope", id "a". *)
Lemma process_request_method_not_found_witness :
  contains fixtures.server (json.get fixtures.request_nope "method") = py.Ok false
  /\ process_request fixtures.server fixtures.request_nope
     = py.Ok (<["jsonrpc" := json.Str "2.0"]>
                (<["error" := json.Obj (<["code" := json.Int (-32601)]>
                                          (<["message" := json.Str "Method not found"]> ∅))]>
                   (<["id" := json.Str "a"]> ∅))).
Proof.
  split; [vm_compute; reflexivity|].
  apply (process_request_method_not_found fixtures.server fixtures.request_nope).
  vm_compute; reflexivity.
Defined.

(** C6: when the handler of the requested method raises, nothing is
    raised: the request is answered with the response
    [{"jsonrpc": "2.0", "error": {"code": -32000, "message": msg}, "id": id}]
    where [msg] is the message of the exception and [id] the id of the
    request ([None] when it has none). The response has these three keys and
    no [result]; the error object has the keys [code] and [message] only. *)
Theorem process_request_handler_raises
    (self : IPCServer) (request : gmap string json.value)
    (method : string) (h : handler) (msg : string) :
  json.get request "method" = json.Str method ->
  handlers self !! method = Some h ->
  h (json.get_default request "params" (json.Obj ∅)) = Raises msg ->
  process_request self request
    = py.Ok (<["jsonrpc" := json.Str "2.0"]>
               (<["error" := json.Obj (<["code" := json.Int (-32000)]>
                                         (<["message" := json.Str msg]> ∅))]>
                  (<["id" := default json.Null (request !! "id")]> ∅)))
  /\ (forall response, process_request self request = py.Ok response ->
        response !! "jsonrpc" = Some (json.Str "2.0")
        /\ response !! "id" = Some (default json.Null (request !! "id"))
        /\ response !! "result" = None
        /\ dom response = {["jsonrpc"; "error"; "id"]}
        /\ exists err,
             response !! "error" = Some (json.Obj err)
             /\ err !! "code" = Some (json.Int (-32000))
             /\ err !! "message" = Some (json.Str msg)
             /\ dom err = {["code"; "message"]}).
Proof.
  intros Hm Hh Hraise.
  assert (Hres : process_request self request
                 = py.Ok (error_response (-32000) msg (json.get request "id"))).
  { unfold process_request. rewrite Hm. simpl.
    rewrite Hh. rewrite bool_decide_eq_true_2 by eauto.
    by rewrite Hraise. }
  split; [exact Hres|].
  intros response Hresponse. rewrite Hres in Hresponse.
  injection Hresponse as <-.
  unfold error_response, error_object, json.get.
  split_and!; [by simplify_map_eq .. | |].
  - rewrite !dom_insert_L, dom_empty_L. set_solver.
  - eexists. split; [by simplify_map_eq|].
    split_and!; [by simplify_map_eq .. |].
    rewrite !dom_insert_L, dom_empty_L. set_solver.
Qed.

(** The "threats" handler of the agent reads [params.get]; an integer as
    params makes it raise. *)
Lemma process_request_handler_raises_witness :
  process_request fixtures.server fixtures.request_threats_bad_params
  = py.Ok (<["jsonrpc" := json.Str "2.0"]>
             (<["error" := json.Obj
                             (<["code" := json.Int (-32000)]>
                                (<["message" :=
                                     json.Str "'int' object has no attribute 'get'"]> ∅))]>
                (<["id" := json.Int 7]> ∅))).
Proof.
  destruct (process_request_handler_raises fixtures.server
              fixtures.request_threats_bad_params "threats" fixtures.handle_threats
              "'int' object has no attribute 'get'") as (Hres & _);
    [vm_compute; reflexivity .. |].
  exact Hres.
Defined.

(** C10, as stated, fails: a request whose method is a JSON array makes
    the membership test raise [TypeError], and no response is returned. *)
Lemma process_request_not_total :
  process_request fixtures.server fixtures.request_list_method
  = py.Raise (py.TypeError "unhashable type: 'list'")
  /\ ~ exists response,
         process_request fixtures.server fixtures.request_list_method = py.Ok response.
Proof.
  assert (He : process_request fixtures.server fixtures.request_list_method
               = py.Raise (py.TypeError "unhashable type: 'list'"))
    by (vm_compute; reflexivity).
  split; [exact He|]. intros [response Hr]. rewrite He in Hr. discriminate.
Qed.

(** C10, amended: on every request dictionary whose method value is
    hashable (anything but an array or an object; the keys "method",
    "params" and "id" may each be missing) [process_request] returns a
    response holding "jsonrpc": "2.0", the id of the request (null when
    absent) and exactly one of "result" and "error"; without a method key
    the response is the -32601 error. *)
Theorem process_request_total_on_hashable
    (self : IPCServer) (request : gmap string json.value) :
  json.hashable (json.get request "method") = true ->
  exists response,
    process_request self request = py.Ok response
    /\ response !! "jsonrpc" = Some (json.Str "2.0")
    /\ response !! "id" = Some (json.get request "id")
    /\ (request !! "id" = None -> response !! "id" = Some json.Null)
    /\ (is_Some (response !! "result") <-> ~ is_Some (response !! "error"))
    /\ (request !! "method" = None ->
        response = error_response (-32601) "Method not found" (json.get request "id")).
Proof.
  intros Hh. unfold process_request.
  assert (Hid : request !! "id" = None -> json.get request "id" = json.Null)
    by (intros E; unfold json.get; by rewrite E).
  assert (Herr : forall code m,
    let r := error_response code m (json.get request "id") in
    r !! "jsonrpc" = Some (json.Str "2.0")
    /\ r !! "id" = Some (json.get request "id")
    /\ (request !! "id" = None -> r !! "id" = Some json.Null)
    /\ (is_Some (r !! "result") <-> ~ is_Some (r !! "error"))).
  { intros code m r. subst r.
    destruct (error_response_lookup code m (json.get request "id"))
      as (E1 & E2 & E3 & E4).
    rewrite E1, E2, E3, E4. split_and!; try done.
    all: try (intros E; by rewrite Hid).
    all: split; [by intros [? ?] | intros Hn; exfalso; apply Hn; eauto]. }
  destruct (contains self (json.get request "method")) as [[|]|e] eqn:Hc.
  - (* the method is a key: the handler runs *)
    destruct (json.get request "method") eqn:Hm; simpl in Hc; try discriminate.
    injection Hc as Hc. apply bool_decide_eq_true_1 in Hc. destruct Hc as [h Hlk].
    assert (Hkey : request !! "method" <> None).
    { intros E. unfold json.get in Hm. rewrite E in Hm. discriminate. }
    simpl. rewrite Hlk.
    destruct (h (json.get_default request "params" (json.Obj ∅))) as [result|msg].
    + exists (result_response result (json.get request "id")).
      destruct (result_response_lookup result (json.get request "id"))
        as (E1 & E2 & E3 & E4).
      rewrite E1, E2, E3, E4. split_and!; try done.
      all: try (intros E; by rewrite Hid).
      all: split; [by intros _ [? ?] | by eauto].
    + eexists. split; [reflexivity|].
      destruct (Herr (-32000)%Z msg) as (? & ? & ? & ?).
      split_and!; done.
  - eexists. split; [reflexivity|].
    destruct (Herr (-32601)%Z "Method not found") as (? & ? & ? & ?).
    split_and!; done.
  - apply (contains_hashable self) in Hh. destruct Hh as [b Hb].
    rewrite Hb in Hc. discriminate.
Qed.

(** A request without any key, on the agent's table. *)
Lemma process_request_total_on_hashable_witness :
  exists response,
    process_request fixtures.server fixtures.request_empty = py.Ok response
    /\ response !! "jsonrpc" = Some (json.Str "2.0")
    /\ response !! "id" = Some (json.get fixtures.request_empty "id")
    /\ (fixtures.request_empty !! "id" = None -> response !! "id" = Some json.Null)
    /\ (is_Some (response !! "result") <-> ~ is_Some (response !! "error"))
    /\ (fixtures.request_empty !! "method" = None ->
        response = error_response (-32601) "Method not found"
                     (json.get fixtures.request_empty "id")).
Proof.
  apply (process_request_total_on_hashable fixtures.server fixtures.request_empty).
  vm_compute; reflexivity.
Defined.

End IPC.

(** ** The watcher's tailer table *)

Section AddPath.
Import watcher.

Lemma add_path_present (self : LogWatcher) (p : string) (t : FileTailer) :
  tailers self !! p = Some t -> add_path self p = self.
Proof.
  intros Hp. unfold add_path. rewrite Hp.
  by rewrite bool_decide_eq_true_2 by eauto.
Qed.

Lemma add_path_absent (self : LogWatcher) (p : string) :
  tailers self !! p = None ->
  tailers (add_path self p) = <[p := FileTailer_default p]> (tailers self).
Proof.
  intros Hp. unfold add_path. rewrite Hp.
  rewrite bool_decide_eq_false_2; [done|]. by intros [? ?].
Qed.

Lemma add_path_registers (self : LogWatcher) (p : string) :
  is_Some (tailers (add_path self p) !! p).
Proof.
  destruct (tailers self !! p) as [t|] eqn:Hp.
  - rewrite (add_path_present self p t Hp). eauto.
  - rewrite (add_path_absent self p Hp). rewrite lookup_insert_eq. eauto.
Qed.

Lemma add_path_other (self : LogWatcher) (p q : string) :
  p <> q -> tailers (add_path self p) !! q = tailers self !! q.
Proof.
  intros Hne. unfold add_path. case_bool_decide; [done|].
  simpl. by rewrite lookup_insert_ne.
Qed.

(** C8: [add_path] is idempotent. After two calls with the same path the
    watcher is the watcher after one call: one tailer is registered under
    the path, the table has the same size, and the second call leaves the
    tailer of the first in place, in whatever state that tailer has reached
    in between. *)
Theorem add_path_idempotent (self : LogWatcher) (p : string) :
  let once := add_path self p in
  let twice := add_path once p in
  twice = once
  /\ is_Some (tailers twice !! p)
  /\ tailers twice !! p = tailers once !! p
  /\ size (tailers twice) = size (tailers once)
  /\ (forall t' : FileTailer,
        let between := {| tailers := <[p := t']> (tailers once) |} in
        add_path between p = between).
Proof.
  intros once twice.
  destruct (add_path_registers self p) as [t Ht].
  assert (E : twice = once) by (apply (add_path_present once p t Ht)).
  rewrite E. split_and!; try done.
  intros t' w. apply (add_path_present w p t').
  subst w. simpl. apply lookup_insert_eq.
Qed.

(** The table built by [LogWatcher(paths)] has a tailer for exactly the
    listed paths, however often a path is listed. *)
Lemma new_LogWatcher_dom (paths : list string) :
  dom (tailers (new_LogWatcher paths)) = list_to_set paths.
Proof.
  unfold new_LogWatcher.
  assert (G : forall (w : LogWatcher),
             dom (tailers (fold_left add_path paths w))
             = dom (tailers w) ∪ list_to_set paths).
  { induction paths as [|p ps IH]; intros w; simpl.
    - set_solver.
    - rewrite IH. unfold add_path. case_bool_decide as Hin.
      + apply elem_of_dom in Hin. set_solver.
      + simpl. rewrite dom_insert_L. set_solver. }
  rewrite G. simpl. rewrite dom_empty_L. set_solver.
Qed.

End AddPath.

(** ** Parser dispatch *)

Section GetParser.
Import pipeline.

Lemma startswith_spec (s p : string) :
  py.startswith s p = true <-> exists post, s = p +:+ post.
Proof.
  revert s. induction p as [|a p IH]; intros s; simpl.
  - split; [intros _; by exists s | done].
  - destruct s as [|b s].
    + split; [done | intros [post Hp]; discriminate].
    + destruct (Ascii.eqb a b) eqn:Hab.
      * apply Ascii.eqb_eq in Hab. subst b. rewrite IH. split.
        -- intros [post ->]. by exists post.
        -- intros [post Hp]. injection Hp as ->. by exists post.
      * apply Ascii.eqb_neq in Hab. split; [done|].
        intros [post Hp]. injection Hp as <- _. done.
Qed.

(** [needle in hay] holds exactly when [needle] is a slice of [hay]. *)
Lemma str_in_spec (needle hay : string) :
  py.str_in needle hay = true <-> Substring needle hay.
Proof.
  unfold Substring. induction hay as [|c hay IH].
  - simpl. rewrite orb_false_r, startswith_spec. split.
    + intros [post Hp]. exists EmptyString, post. done.
    + intros (pre & post & Hp). destruct pre as [|? ?]; [|discriminate].
      by exists post.
  - cbn [py.str_in]. rewrite orb_true_iff, startswith_spec, IH. split.
    + intros [[post Hp] | (pre & post & Hp)].
      * exists EmptyString, post. done.
      * exists (String c pre), post. simpl. by rewrite Hp.
    + intros (pre & post & Hp). destruct pre as [|c' pre].
      * left. by exists post.
      * right. injection Hp as -> Hp. by exists pre, post.
Qed.

Lemma str_in_false (needle hay : string) :
  py.str_in needle hay = false <-> ~ Substring needle hay.
Proof.
  rewrite <- str_in_spec. by destruct (py.str_in needle hay).
Qed.

(** C7: the parser is selected by the path alone. On a pipeline as its
    constructor builds it, a path containing "nginx" selects the nginx
    parser; otherwise a path containing "auth.log" or "secure" selects the
    ssh parser; every other path selects the generic parser; and the
    selection never fails. *)
Theorem get_parser_selection {Pattern : Type}
    (config_rules_path : string) (loaded : list (engine.Rule Pattern))
    (path : string) :
  let self := __init__ config_rules_path loaded in
  (Substring "nginx" path -> _get_parser self path = py.Ok NginxParser)
  /\ (~ Substring "nginx" path ->
      Substring "auth.log" path \/ Substring "secure" path ->
      _get_parser self path = py.Ok SSHParser)
  /\ (~ Substring "nginx" path ->
      ~ Substring "auth.log" path -> ~ Substring "secure" path ->
      _get_parser self path = py.Ok GenericParser)
  /\ (exists parser, _get_parser self path = py.Ok parser)
  /\ (forall rules_path' (loaded' : list (engine.Rule Pattern)),
        _get_parser (__init__ rules_path' loaded') path = _get_parser self path).
Proof.
  intros self. unfold _get_parser.
  split_and!.
  - intros Hn. apply str_in_spec in Hn. by rewrite Hn.
  - intros Hn Hs. apply str_in_false in Hn. rewrite Hn.
    rewrite <- !str_in_spec in Hs. apply orb_true_iff in Hs. by rewrite Hs.
  - intros Hn Ha Hs. apply str_in_false in Hn, Ha, Hs. by rewrite Hn, Ha, Hs.
  - destruct (py.str_in "nginx" path); [by eexists|].
    destruct (py.str_in "auth.log" path || py.str_in "secure" path); by eexists.
  - done.
Qed.

(** One path for each of the three branches. *)
Lemma get_parser_selection_witness :
  let self := __init__ (Pattern := string) "/etc/sentinel/rules" [fixtures.ssh_bf] in
  _get_parser self "/var/log/nginx/access.log" = py.Ok NginxParser
  /\ _get_parser self "/var/log/auth.log" = py.Ok SSHParser
  /\ _get_parser self "/var/log/syslog" = py.Ok GenericParser.
Proof.
  intros self. split_and!.
  - destruct (get_parser_selection "/etc/sentinel/rules" [fixtures.ssh_bf]
                "/var/log/nginx/access.log") as (Hnginx & _).
    apply Hnginx. apply str_in_spec. vm_compute; reflexivity.
  - destruct (get_parser_selection "/etc/sentinel/rules" [fixtures.ssh_bf]
                "/var/log/auth.log") as (_ & Hssh & _).
    apply Hssh.
    + apply str_in_false. vm_compute; reflexivity.
    + left. apply str_in_spec. vm_compute; reflexivity.
  - destruct (get_parser_selection "/etc/sentinel/rules" [fixtures.ssh_bf]
                "/var/log/syslog") as (_ & _ & Hgeneric & _).
    apply Hgeneric; apply str_in_false; vm_compute; reflexivity.
Defined.

End GetParser.

(** ** Threat identifiers *)

Section ThreatId.
Import models.

Lemma hex_digit_lower (d : N) : is_lower_hex (hex_digit d) = true.
Proof.
  destruct d as [|p]; [reflexivity|].
  do 4 (try destruct p as [p|p|]); reflexivity.
Qed.

Lemma hex_fixed_chars (width : nat) (n : N) (acc : string) :
  all_chars is_lower_hex acc = true ->
  all_chars is_lower_hex (hex_fixed width n acc) = true.
Proof.
  revert n acc. induction width as [|w IH]; intros n acc Hacc; simpl; [done|].
  apply IH. simpl. by rewrite hex_digit_lower.
Qed.

Lemma hex_fixed_length (width : nat) (n : N) (acc : string) :
  String.length (hex_fixed width n acc) = width + String.length acc.
Proof.
  revert n acc. induction width as [|w IH]; intros n acc; simpl; [done|].
  rewrite IH. simpl. lia.
Qed.

Lemma str_take_chars (p : ascii -> bool) (k : nat) (s : string) :
  all_chars p s = true -> all_chars p (str_take k s) = true.
Proof.
  revert s. induction k as [|k IH]; intros [|c s]; simpl; try done.
  intros [Hc Hs]%andb_true_iff. rewrite Hc. by apply IH.
Qed.

Lemma str_take_length (k : nat) (s : string) :
  k <= String.length s -> String.length (str_take k s) = k.
Proof.
  revert s. induction k as [|k IH]; intros [|c s]; simpl; try done; try lia.
  intros Hk. rewrite IH; lia.
Qed.

(** Whatever the UUID drawn, the default identifier has the shape
    [THR-] followed by twelve lower-case hexadecimal digits. *)
Lemma default_id_matches (env : Env) : matches_THR_id (default_id env) = true.
Proof.
  pose (h := str_take 12 (uuid_hex (uuid4_int env))).
  change (default_id env) with (String "T" (String "H" (String "R" (String "-" h)))).
  assert (Hlen : String.length h = 12).
  { apply str_take_length. unfold uuid_hex. rewrite hex_fixed_length. simpl. lia. }
  assert (Hhex : all_chars is_lower_hex h = true).
  { apply str_take_chars, hex_fixed_chars. reflexivity. }
  clearbody h. simpl. by rewrite Hlen, Hhex.
Qed.

End ThreatId.

(** ** The rule engine *)

Section Evaluate.
Context {Pattern Match : Type} `{Regex Pattern Match}.
Import engine.

Lemma first_match_Some (ps : list Pattern) (raw : string) (m : Match) :
  first_match ps raw = Some m ->
  exists pattern, In pattern ps /\ search pattern raw = Some m.
Proof.
  induction ps as [|p ps IH]; simpl; [done|].
  destruct (search p raw) as [m'|] eqn:Hs.
  - intros [= <-]. exists p. auto.
  - intros Hm. destruct (IH Hm) as (q & Hq & Hsq). exists q. auto.
Qed.

Lemma fires_false (rule : Rule Pattern) (event : base.ParsedEvent) :
  driver.fires rule event = false <->
  skipped rule event = true \/ first_match (patterns rule) (base.raw event) = None.
Proof.
  unfold driver.fires. destruct (skipped rule event); simpl; [tauto|].
  destruct (first_match (patterns rule) (base.raw event)) as [m|].
  - rewrite bool_decide_eq_true_2 by eauto. split; [done|]. intros [?|?]; done.
  - rewrite bool_decide_eq_false_2 by (by intros [? ?]). tauto.
Qed.

Lemma fires_true (rule : Rule Pattern) (event : base.ParsedEvent) :
  driver.fires rule event = true <->
  skipped rule event = false
  /\ exists m, first_match (patterns rule) (base.raw event) = Some m.
Proof.
  unfold driver.fires. destruct (skipped rule event); simpl.
  - split; [done|]. intros [? _]; done.
  - rewrite bool_decide_eq_true. unfold is_Some. tauto.
Qed.

(** The loops stop at the first rule that fires, and the threat is built
    from that rule and its first match. *)
Lemma evaluate_rules_Some (rs : list (Rule Pattern)) (event : base.ParsedEvent)
    (env : models.Env) (t : models.Threat) :
  evaluate_rules rs event env = Some t ->
  exists pre rule post m,
    rs = (pre ++ rule :: post)%list
    /\ Forall (fun r => driver.fires r event = false) pre
    /\ skipped rule event = false
    /\ first_match (patterns rule) (base.raw event) = Some m
    /\ t = make_threat rule m event env.
Proof.
  induction rs as [|r rs IH]; simpl; [done|].
  destruct (skipped r event) eqn:Hsk.
  - intros Ht. destruct (IH Ht) as (pre & rule & post & m & -> & Hpre & ?).
    exists (r :: pre), rule, post, m. split; [done|]. split; [|done].
    constructor; [|done]. apply fires_false. auto.
  - destruct (first_match (patterns r) (base.raw event)) as [m|] eqn:Hfm.
    + intros [= <-]. exists [], r, rs, m. by split_and!.
    + intros Ht. destruct (IH Ht) as (pre & rule & post & m & -> & Hpre & ?).
      exists (r :: pre), rule, post, m. split; [done|]. split; [|done].
      constructor; [|done]. apply fires_false. auto.
Qed.

Lemma evaluate_rules_None (rs : list (Rule Pattern)) (event : base.ParsedEvent)
    (env : models.Env) :
  evaluate_rules rs event env = None <->
  Forall (fun r => driver.fires r event = false) rs.
Proof.
  induction rs as [|r rs IH]; simpl; [split; [constructor | done]|].
  rewrite Forall_cons, fires_false, <- IH.
  destruct (skipped r event); [tauto|].
  destruct (first_match (patterns r) (base.raw event)); [|tauto].
  split; [done|]. intros [[?|?] _]; done.
Qed.

(** A rule that fires makes [evaluate] return a threat. *)
Lemma evaluate_rules_fires (rs : list (Rule Pattern)) (event : base.ParsedEvent)
    (env : models.Env) (rule : Rule Pattern) :
  In rule rs -> driver.fires rule event = true ->
  is_Some (evaluate_rules rs event env).
Proof.
  intros Hin Hf.
  destruct (evaluate_rules rs event env) as [t|] eqn:He; [eauto|].
  apply evaluate_rules_None in He. rewrite Forall_forall in He.
  apply list_elem_of_In in Hin. rewrite (He rule Hin) in Hf. discriminate.
Qed.

(** What the draws of the default factories do not touch. *)
Lemma evaluate_rules_refreshed (rs : list (Rule Pattern)) (event : base.ParsedEvent)
    (env env' : models.Env) :
  evaluate_rules rs event env' = refreshed env' <$> evaluate_rules rs event env.
Proof.
  induction rs as [|r rs IH]; simpl; [done|].
  destruct (skipped r event); [done|].
  by destruct (first_match (patterns r) (base.raw event)).
Qed.

(** C3: a threat returned by [evaluate] is built from the rule that
    matched the event, the first rule of the engine that is not skipped
    and has a pattern found in the raw line. Its severity and description
    are the rule's, its type is "rule_match", its rule_id is the rule's id
    and so never absent, its risk_score is 0.8 and lies in [0,1], its
    status is "open", and its id matches [^THR-[0-9a-f]{12}$]. *)
Theorem evaluate_threat_fields (self : RuleEngine Pattern)
    (event : base.ParsedEvent) (env : models.Env) (t : models.Threat) :
  fst (evaluate self event env) = Some t ->
  exists pre rule post pattern,
    rules self = (pre ++ rule :: post)%list
    /\ Forall (fun r => driver.fires r event = false) pre
    /\ skipped rule event = false
    /\ In pattern (patterns rule)
    /\ is_Some (search pattern (base.raw event))
    /\ models.severity t = severity rule
    /\ models.type t = "rule_match"
    /\ models.description t = description rule
    /\ models.rule_id t = Some (id rule)
    /\ models.risk_score t = 0.8%Q
    /\ (0 <= models.risk_score t <= 1)%Q
    /\ models.status t = "open"
    /\ models.matches_THR_id (models.id t) = true.
Proof.
  unfold evaluate. simpl. intros Ht.
  destruct (evaluate_rules_Some _ _ _ _ Ht)
    as (pre & rule & post & m & Hrs & Hpre & Hsk & Hfm & ->).
  destruct (first_match_Some _ _ _ Hfm) as (pattern & Hin & Hs).
  exists pre, rule, post, pattern.
  split_and!; [exact Hrs | exact Hpre | exact Hsk | exact Hin | | ..].
  - rewrite Hs. eauto.
  - reflexivity.
  - reflexivity.
  - reflexivity.
  - reflexivity.
  - reflexivity.
  - unfold Qle; simpl; lia.
  - unfold Qle; simpl; lia.
  - reflexivity.
  - apply default_id_matches.
Qed.

(** Emission does not depend on [threshold], [window] or what came
    before: every event some rule fires on gets a threat, and the engine
    is handed on as it was. *)
Lemma feed_emits_every_match (self : RuleEngine Pattern)
    (events : list base.ParsedEvent) (envs : nat -> models.Env) (k : nat) :
  Forall (fun event => exists rule, In rule (rules self)
                                    /\ driver.fires rule event = true) events ->
  Forall (fun out => is_Some out) (fst (driver.feed self events envs k))
  /\ length (fst (driver.feed self events envs k)) = length events
  /\ snd (driver.feed self events envs k) = self.
Proof.
  revert k. induction events as [|event events IH]; intros k Hall; simpl.
  - split_and!; [constructor | done | done].
  - apply Forall_cons in Hall as [(rule & Hin & Hf) Hall].
    destruct (IH (S k) Hall) as (IH1 & IH2 & IH3).
    destruct (driver.feed self events envs (S k)) as [threats self''] eqn:Hfeed.
    simpl in *. split_and!; [|by rewrite IH2|done].
    constructor; [|done]. by apply (evaluate_rules_fires _ _ _ rule).
Qed.

(** The rule an event is matched by is the rule its threat is built from. *)
Lemma evaluate_rules_first (rs : list (Rule Pattern)) (rule : Rule Pattern)
    (event : base.ParsedEvent) (env : models.Env) :
  driver.matched_by rs rule event ->
  exists m, first_match (patterns rule) (base.raw event) = Some m
            /\ evaluate_rules rs event env = Some (make_threat rule m event env).
Proof.
  intros (pre & post & -> & Hpre & Hf).
  apply fires_true in Hf as (Hsk & m & Hm). exists m. split; [done|].
  induction Hpre as [|r pre Hr _ IH]; simpl.
  - by rewrite Hsk, Hm.
  - apply fires_false in Hr as [Hr|Hr]; rewrite Hr; [done|].
    by destruct (skipped r event).
Qed.

Lemma feed_matched (self : RuleEngine Pattern) (rule : Rule Pattern)
    (events : list base.ParsedEvent) (envs : nat -> models.Env) (k : nat) :
  Forall (driver.matched_by (rules self) rule) events ->
  Forall (fun out => exists t, out = Some t /\ models.rule_id t = Some (id rule))
    (fst (driver.feed self events envs k))
  /\ length (fst (driver.feed self events envs k)) = length events
  /\ snd (driver.feed self events envs k) = self.
Proof.
  revert k. induction events as [|event events IH]; intros k Hall; simpl.
  - split_and!; [constructor | done | done].
  - apply Forall_cons in Hall as [Hm Hall].
    destruct (IH (S k) Hall) as (IH1 & IH2 & IH3).
    destruct (driver.feed self events envs (S k)) as [threats self''] eqn:Hfeed.
    simpl in *. split_and!; [|by rewrite IH2|done].
    constructor; [|done].
    destruct (evaluate_rules_first _ _ _ (envs k) Hm) as (m & _ & ->).
    eexists. split; reflexivity.
Qed.

End Evaluate.

(** ** The rule engine on concrete input, and against the sliding window *)

Section EvaluateFrame.
Import engine.

(** The specification's first scenario: one failed SSH login against the
    rule "ssh-bf". *)
Lemma evaluate_threat_fields_witness :
  exists t,
    fst (evaluate fixtures.the_engine (fixtures.failed_login 0) (fixtures.env_of 1)) = Some t
    /\ models.rule_id t <> None
    /\ models.type t = "rule_match"
    /\ models.status t = "open"
    /\ (0 <= models.risk_score t <= 1)%Q
    /\ models.matches_THR_id (models.id t) = true.
Proof.
  eexists. split; [vm_compute; reflexivity|].
  match goal with
  | |- models.rule_id ?t <> None /\ _ =>
      assert (Ht : fst (evaluate fixtures.the_engine (fixtures.failed_login 0)
                          (fixtures.env_of 1)) = Some t)
        by (vm_compute; reflexivity);
      destruct (evaluate_threat_fields fixtures.the_engine (fixtures.failed_login 0)
                  (fixtures.env_of 1) t Ht)
        as (pre & rule & post & pattern & _ & _ & _ & _ & _ &
            _ & Hty & _ & Hid & _ & Hrisk & Hst & Hmatch)
  end.
  split_and!; [by rewrite Hid | exact Hty | exact Hst | apply Hrisk .. | exact Hmatch].
Defined.

(** C9, as stated, fails in its last part: two calls on equal events
    return threats with different identifiers, because each [Threat]
    draws a fresh UUID. *)
Lemma evaluate_twice_not_equal :
  let event := fixtures.failed_login 0 in
  let '(first, self') := evaluate fixtures.the_engine event (fixtures.env_of 1) in
  let '(second, _) := evaluate self' event (fixtures.env_of 2) in
  first <> second.
Proof.
  vm_compute. intros Heq. discriminate Heq.
Qed.

(** C9, amended: [evaluate] leaves the engine as it found it, the
    sliding-window state and the rule list included, so a second call on
    an equal event returns a threat exactly when the first did, and the
    two threats agree on every field but the freshly drawn [id] and
    [created_at]. *)
Theorem evaluate_does_not_mutate {Pattern Match : Type} `{Regex Pattern Match}
    (self : RuleEngine Pattern) (event : base.ParsedEvent)
    (env env' : models.Env) :
  let self' := snd (evaluate self event env) in
  self' = self
  /\ state self' = state self
  /\ rules self' = rules self
  /\ snd (evaluate self' event env') = self
  /\ fst (evaluate self' event env')
     = refreshed env' <$> fst (evaluate self event env)
  /\ (is_Some (fst (evaluate self' event env'))
      <-> is_Some (fst (evaluate self event env))).
Proof.
  unfold evaluate. cbn [fst snd]. split_and!; try reflexivity.
  - apply evaluate_rules_refreshed.
  - rewrite (evaluate_rules_refreshed (rules self) event env env').
    apply fmap_is_Some.
Qed.

Lemma run_threshold_le_1 (threshold window : Z) (times bucket : list Q) :
  (threshold <= 1)%Z ->
  spec_aggregation.run threshold window times bucket
  = repeat true (length times).
Proof.
  intros Hle. revert bucket. induction times as [|now times IH]; intros bucket.
  - reflexivity.
  - cbn [spec_aggregation.run]. unfold spec_aggregation.on_match.
    rewrite length_app. cbn [length].
    replace (threshold <=? _)%Z with true by (symmetry; apply Z.leb_le; lia).
    rewrite IH. reflexivity.
Qed.

Lemma emissions_all_true (outs : list (option models.Threat)) :
  Forall (fun out => is_Some out) outs ->
  driver.emissions outs = repeat true (length outs).
Proof.
  induction 1 as [|out outs [t ->] _ IH]; simpl; [done|]. by rewrite IH.
Qed.

(** C1, as stated, fails: with threshold 3 and window 60 the engine
    returns a threat for each of the four matches at t = 0, 10, 20, 30,
    where the sliding window emits once, on the third. *)
Lemma evaluate_ignores_threshold :
  let outs := fst (driver.feed fixtures.the_engine fixtures.four_matches
                     fixtures.env_of 0) in
  let window_says :=
    spec_aggregation.run (threshold fixtures.ssh_bf) (window fixtures.ssh_bf)
      (map base.timestamp fixtures.four_matches) [] in
  threshold fixtures.ssh_bf = 3%Z
  /\ window fixtures.ssh_bf = 60%Z
  /\ driver.emissions outs = [true; true; true; true]
  /\ window_says = [false; false; true; false]
  /\ driver.emissions outs <> window_says.
Proof.
  vm_compute. split_and!; try reflexivity. intros Heq. discriminate Heq.
Qed.

(** C1, amended: [evaluate] does no aggregation. For every rule, whatever
    its threshold and window, and every sequence of events matched by the
    rule, each event gets a threat of that rule, and the engine keeps no
    bucket: it is handed on unchanged. For a rule whose threshold is at
    most 1 these are the emissions of the sliding window. *)
Theorem evaluate_emits_on_every_match {Pattern Match : Type} `{Regex Pattern Match}
    (self : RuleEngine Pattern) (rule : Rule Pattern)
    (events : list base.ParsedEvent) (envs : nat -> models.Env) :
  Forall (driver.matched_by (rules self) rule) events ->
  let outs := fst (driver.feed self events envs 0) in
  Forall (fun out => exists t, out = Some t /\ models.rule_id t = Some (id rule)) outs
  /\ driver.emissions outs = repeat true (length events)
  /\ snd (driver.feed self events envs 0) = self
  /\ ((threshold rule <= 1)%Z ->
      driver.emissions outs
      = spec_aggregation.run (threshold rule) (window rule)
          (map base.timestamp events) []).
Proof.
  intros Hall outs.
  destruct (feed_matched self rule events envs 0 Hall) as (Hrule & Hlen & Hself).
  assert (Hem : driver.emissions outs = repeat true (length events)).
  { subst outs. rewrite <- Hlen. apply emissions_all_true.
    eapply Forall_impl; [exact Hrule|]. intros out (t & -> & _). eauto. }
  split_and!; [exact Hrule | exact Hem | exact Hself |].
  intros Hle. rewrite Hem.
  rewrite (run_threshold_le_1 _ _ _ _ Hle). by rewrite length_map.
Qed.

(** The four matches against the rule with threshold 3 and window 60. *)
Lemma evaluate_emits_on_every_match_witness :
  driver.emissions
    (fst (driver.feed fixtures.the_engine fixtures.four_matches fixtures.env_of 0))
  = [true; true; true; true]
  /\ snd (driver.feed fixtures.the_engine fixtures.four_matches fixtures.env_of 0)
     = fixtures.the_engine.
Proof.
  assert (Hall : Forall (driver.matched_by (rules fixtures.the_engine) fixtures.ssh_bf)
                   fixtures.four_matches).
  { repeat constructor; exists [], [];
      (split_and!; [reflexivity | constructor | vm_compute; reflexivity]). }
  destruct (evaluate_emits_on_every_match fixtures.the_engine fixtures.ssh_bf
              fixtures.four_matches fixtures.env_of Hall) as (_ & Hem & Hself & _).
  split; [exact Hem | exact Hself].
Defined.

End EvaluateFrame.

(** ** The threat store *)

Section GetThreats.
Import database.

Lemma string_compare_refl (s : string) : String.compare s s = Eq.
Proof.
  induction s as [|a s IH]; simpl; [done|].
  unfold Ascii.compare. by rewrite N.compare_refl.
Qed.

(** Byte order on text is transitive. *)
Lemma string_leb_trans (s1 s2 s3 : string) :
  String.leb s1 s2 = true -> String.leb s2 s3 = true -> String.leb s1 s3 = true.
Proof.
  unfold String.leb. revert s2 s3.
  induction s1 as [|a s1 IH]; intros [|b s2] [|c s3]; simpl; try done.
  unfold Ascii.compare.
  destruct (N.compare_spec (N_of_ascii a) (N_of_ascii b)) as [Eab|Lab|Gab];
    destruct (N.compare_spec (N_of_ascii b) (N_of_ascii c)) as [Ebc|Lbc|Gbc];
    try done.
  - rewrite Eab, Ebc, N.compare_refl. apply IH.
  - intros _ _. rewrite Eab. by apply N.compare_lt_iff in Lbc as ->.
  - intros _ _. rewrite <- Ebc. by apply N.compare_lt_iff in Lab as ->.
  - intros _ _.
    assert (Lac : (N_of_ascii a < N_of_ascii c)%N) by lia.
    by apply N.compare_lt_iff in Lac as ->.
Qed.

#[local] Instance created_desc_total : Total created_desc.
Proof.
  intros a b. unfold created_desc.
  destruct (String.leb_total (models.created_at a) (models.created_at b)); auto.
Qed.

#[local] Instance created_desc_trans : Transitive created_desc.
Proof.
  intros a b c Hab Hbc. unfold created_desc in *.
  by apply (string_leb_trans _ (models.created_at b)).
Qed.

Lemma created_desc_refl (a : models.Threat) : created_desc a a.
Proof. unfold created_desc, String.leb. by rewrite string_compare_refl. Qed.

Lemma insert_desc_Permutation (row : models.Threat) (sorted : list models.Threat) :
  insert_desc row sorted ≡ₚ row :: sorted.
Proof.
  induction sorted as [|r rest IH]; [done|]. cbn [insert_desc].
  destruct (String.ltb _ _); [|done]. rewrite IH. apply Permutation_swap.
Qed.

Lemma order_by_created_at_desc_Permutation (rows : list models.Threat) :
  order_by_created_at_desc rows ≡ₚ rows.
Proof.
  induction rows as [|row rows IH]; [done|]. cbn [order_by_created_at_desc foldr].
  rewrite insert_desc_Permutation. fold (order_by_created_at_desc rows).
  by apply Permutation_skip.
Qed.

Lemma insert_desc_sorted (row : models.Threat) (sorted : list models.Threat) :
  StronglySorted created_desc sorted ->
  StronglySorted created_desc (insert_desc row sorted).
Proof.
  induction 1 as [|r rest Hs IH Hr]; cbn [insert_desc]; [by repeat constructor|].
  destruct (String.ltb (models.created_at row) (models.created_at r)) eqn:Hlt.
  - constructor; [exact IH|]. rewrite insert_desc_Permutation.
    constructor; [|done].
    unfold created_desc, String.leb. unfold String.ltb in Hlt.
    by destruct (String.compare (models.created_at row) (models.created_at r)).
  - assert (Hrr : created_desc row r).
    { unfold created_desc, String.leb. unfold String.ltb in Hlt.
      rewrite String.compare_antisym.
      by destruct (String.compare (models.created_at row) (models.created_at r)). }
    constructor; [by constructor|]. constructor; [done|].
    eapply Forall_impl; [exact Hr|]. intros y Hy. by transitivity r.
Qed.

Lemma order_by_created_at_desc_sorted (rows : list models.Threat) :
  StronglySorted created_desc (order_by_created_at_desc rows).
Proof.
  induction rows as [|row rows IH]; [constructor|].
  cbn [order_by_created_at_desc foldr]. by apply insert_desc_sorted.
Qed.

(** In a strongly sorted list every earlier element is related to every
    later one. *)
Lemma StronglySorted_lookup {A} (R : relation A) (l : list A) (i j : nat) (a b : A) :
  StronglySorted R l -> i < j -> l !! i = Some a -> l !! j = Some b -> R a b.
Proof.
  intros Hs. revert i j. induction Hs as [|x l Hs IH Hx]; intros i j Hij Hi Hj.
  - done.
  - destruct j as [|j]; [lia|]. destruct i as [|i]; simpl in *.
    + injection Hi as ->. rewrite Forall_forall in Hx. apply Hx.
      by apply list_elem_of_lookup_2 in Hj.
    + apply (IH i j); [lia | done | done].
Qed.

Lemma sql_limit_sorted {A} (R : relation A) (n : Z) (rows : list A) :
  StronglySorted R rows -> StronglySorted R (sql_limit n rows).
Proof.
  intros Hs. unfold sql_limit. destruct (n <? 0)%Z; [done|].
  rewrite <- (take_drop (Z.to_nat n) rows) in Hs.
  by apply StronglySorted_app_1_l in Hs.
Qed.

Lemma sql_limit_length {A} (n : Z) (rows : list A) :
  (0 <= n)%Z -> (Z.of_nat (length (sql_limit n rows)) <= n)%Z.
Proof.
  intros Hn. unfold sql_limit.
  destruct (n <? 0)%Z eqn:Hneg; [apply Z.ltb_lt in Hneg; lia|].
  rewrite length_take. lia.
Qed.

Lemma sql_limit_subseteq {A} (n : Z) (rows : list A) : sql_limit n rows ⊆ rows.
Proof.
  unfold sql_limit. destruct (n <? 0)%Z; [done|].
  intros x Hx. by apply elem_of_take in Hx as (i & Hi & _);
    apply list_elem_of_lookup_2 in Hi.
Qed.

(** C4, as stated, fails for a negative bound: SQLite reads [LIMIT -1] as
    no limit, so every row comes back and the length exceeds [n]. *)
Lemma get_threats_negative_limit :
  exists l, get_threats fixtures.store (-1) = py.Ok l
            /\ length l = 3
            /\ ~ (Z.of_nat (length l) <= -1)%Z.
Proof.
  eexists. split; [vm_compute; reflexivity|]. split; [reflexivity|].
  simpl. lia.
Qed.

(** C4, amended: for every call [get_threats(n)] with [n >= 0], on a
    store holding any threats, the list returned has at most [n] elements
    and [created_at] never increases from an element to a later one; the
    elements are rows of the store. *)
Theorem get_threats_bounded_sorted (self : ThreatStore) (n : Z)
    (l : list models.Threat) :
  (0 <= n)%Z ->
  get_threats self n = py.Ok l ->
  (Z.of_nat (length l) <= n)%Z
  /\ (forall i j a b, i <= j -> l !! i = Some a -> l !! j = Some b ->
        String.leb (models.created_at b) (models.created_at a) = true)
  /\ (exists db, _db self = Some db /\ l ⊆ threats db).
Proof.
  intros Hn. unfold get_threats.
  destruct (_db self) as [db|]; [|done].
  destruct (fits_int64 n); [|done]. intros [= <-].
  assert (Hsorted : StronglySorted created_desc
                      (sql_limit n (order_by_created_at_desc (threats db)))).
  { apply sql_limit_sorted. apply order_by_created_at_desc_sorted. }
  split_and!.
  - by apply sql_limit_length.
  - intros i j a b Hij Hi Hj.
    destruct (decide (i = j)) as [->|Hne].
    + rewrite Hi in Hj. injection Hj as ->. apply created_desc_refl.
    + apply (StronglySorted_lookup created_desc _ i j a b Hsorted); [lia|done|done].
  - exists db. split; [done|]. etrans; [apply sql_limit_subseteq|].
    intros x Hx.
    by rewrite order_by_created_at_desc_Permutation in Hx.
Qed.

(** An open store answers every bound that fits 64 bits. *)
Lemma get_threats_returns (self : ThreatStore) (db : Connection) (n : Z) :
  _db self = Some db -> fits_int64 n = true ->
  exists l, get_threats self n = py.Ok l.
Proof. intros Hdb Hfit. unfold get_threats. rewrite Hdb, Hfit. eauto. Qed.

(** Three stored threats, the two latest asked for. *)
Lemma get_threats_bounded_sorted_witness :
  exists l,
    get_threats fixtures.store 2 = py.Ok l
    /\ models.id <$> l = ["THR-000000000002"; "THR-000000000003"]
    /\ (Z.of_nat (length l) <= 2)%Z
    /\ (forall i j a b, i <= j -> l !! i = Some a -> l !! j = Some b ->
          String.leb (models.created_at b) (models.created_at a) = true).
Proof.
  eexists. split; [vm_compute; reflexivity|]. split; [reflexivity|].
  match goal with
  | |- (Z.of_nat (length ?l) <= _)%Z /\ _ =>
      assert (Hl : get_threats fixtures.store 2 = py.Ok l) by (vm_compute; reflexivity);
      destruct (get_threats_bounded_sorted fixtures.store 2 l) as (Hlen & Hord & _);
        [lia | exact Hl | split; [exact Hlen | exact Hord]]
  end.
Defined.

End GetThreats.

(** ** Rotation *)

Section Rotation.
Import watcher.

Lemma str_drop_length (s : string) : str_drop (String.length s) s = EmptyString.
Proof. induction s as [|c s IH]; simpl; done. Qed.

(** *** Draining a file, in general *)

Lemma take_line_nil (s : string) : take_line s = EmptyString -> s = EmptyString.
Proof.
  destruct s as [|c s]; [done|]. simpl. by destruct (Ascii.eqb c newline).
Qed.

Lemma take_line_lines (s : string) :
  lines s = match take_line s with
            | EmptyString => []
            | line => line :: lines (str_drop (String.length line) s)
            end.
Proof.
  induction s as [|c s IH]; [done|]. cbn [lines take_line].
  destruct (Ascii.eqb c newline); [done|].
  rewrite IH. cbn [String.length str_drop].
  destruct (take_line s) as [|c' l] eqn:Hl; [|done].
  apply take_line_nil in Hl. by subst s.
Qed.

Lemma lines_nil (s : string) : lines s = [] -> s = EmptyString.
Proof.
  destruct s as [|c s]; [done|]. cbn [lines].
  destruct (Ascii.eqb c newline); [done|]. by destruct (lines s).
Qed.

Lemma lines_cons (s line : string) (rest : list string) :
  lines s = line :: rest ->
  take_line s = line /\ line <> EmptyString
  /\ lines (str_drop (String.length line) s) = rest.
Proof.
  rewrite take_line_lines. destruct (take_line s) as [|c l]; [done|].
  by intros [= <- <-].
Qed.

Lemma take_line_length (s : string) : String.length (take_line s) <= String.length s.
Proof.
  induction s as [|c s IH]; simpl; [lia|].
  destruct (Ascii.eqb c newline); simpl; lia.
Qed.

Lemma str_drop_add (a b : nat) (s : string) :
  str_drop (a + b) s = str_drop b (str_drop a s).
Proof.
  revert s. induction a as [|a IH]; intros s; [done|].
  destruct s as [|c s]; simpl; [by destruct b | apply IH].
Qed.

Lemma str_drop_length_le (k : nat) (s : string) :
  k <= String.length s -> k + String.length (str_drop k s) = String.length s.
Proof.
  revert s. induction k as [|k IH]; intros s Hk; [done|].
  destruct s as [|c s]; simpl in *; [lia|]. rewrite <- (IH s); lia.
Qed.

Lemma str_drop_to_end (k : nat) (s : string) :
  str_drop (k + String.length (str_drop k s)) s = EmptyString.
Proof. rewrite str_drop_add. apply str_drop_length. Qed.

Lemma with_fd_with_fd (self : FileTailer) (a b : option TextIO) :
  with_fd (with_fd self a) b = with_fd self b.
Proof. done. Qed.

Lemma with_fd_same (self : FileTailer) (fd : TextIO) :
  _fd self = Some fd -> with_fd self (Some fd) = self.
Proof. destruct self; simpl. by intros ->. Qed.

(** As many iterations as there are lines left yield these lines,
    stripped, in file order, and leave the file at EOF. *)
Lemma readline_decodes (fs : FileSystem) (fd : TextIO) :
  decodes fs (ino fd) ->
  readline fs fd
  = let line := take_line (str_drop (pos fd) (text_of fs fd)) in
    (Some line,
     {| ino := ino fd; pos := pos fd + String.length line; closed := closed fd |}).
Proof. intros Hdec. unfold readline. by rewrite (Hdec (pos fd)). Qed.

Lemma read_loop_drain (fs : FileSystem) (ls : list string) :
  forall (self : FileTailer) (fd : TextIO) (acc : list string) (k : nat),
    _fd self = Some fd -> closed fd = false ->
    decodes fs (ino fd) ->
    lines (str_drop (pos fd) (text_of fs fd)) = ls ->
    read_loop (length ls + k) fs self acc
    = read_loop k fs (with_fd self (Some (at_eof fs fd)))
        (acc ++ map py.strip ls)%list.
Proof.
  induction ls as [|line ls IH]; intros self fd acc k Hfd Hopen Hdec Hls.
  - apply lines_nil in Hls. unfold at_eof. rewrite Hls. cbn [String.length].
    rewrite Nat.add_0_r, app_nil_r. cbn [length Nat.add].
    replace {| ino := ino fd; pos := pos fd; closed := false |} with fd
      by (destruct fd; simpl in *; by subst).
    by rewrite (with_fd_same self fd Hfd).
  - apply lines_cons in Hls as (Hline & Hne & Hrest).
    cbn [length Nat.add read_loop]. rewrite Hfd, Hopen.
    rewrite (readline_decodes fs fd Hdec). cbv zeta. rewrite Hline.
    destruct line as [|c line]; [done|].
    set (fd1 := {| ino := ino fd;
                   pos := pos fd + String.length (String c line);
                   closed := closed fd |}).
    rewrite (IH (with_fd self (Some fd1)) fd1); [| done | done | done |].
    + rewrite with_fd_with_fd, <- app_assoc. cbn [map app].
      do 2 f_equal. unfold at_eof, text_of. subst fd1. cbn [ino pos].
      f_equal. f_equal.
      rewrite str_drop_add.
      pose proof (take_line_length (str_drop (pos fd) (text_of fs fd))) as Hlen.
      rewrite Hline in Hlen.
      pose proof (str_drop_length_le _ _ Hlen) as Hsum.
      unfold text_of in *. lia.
    + subst fd1. unfold text_of in *. cbn [ino pos]. by rewrite str_drop_add.
Qed.

Lemma readline_at_eof (fs : FileSystem) (fd : TextIO) :
  decodes fs (ino fd) ->
  readline fs (at_eof fs fd) = (Some EmptyString, at_eof fs fd).
Proof.
  intros Hdec. rewrite readline_decodes by exact Hdec.
  unfold at_eof, text_of. cbn [ino pos closed]. fold (text_of fs fd).
  rewrite str_drop_to_end. cbn [take_line String.length]. by rewrite Nat.add_0_r.
Qed.

(** The iteration that finds the file at EOF. *)
Lemma read_loop_eof (fs : FileSystem) (self : FileTailer) (fd : TextIO)
    (acc : list string) (k : nat) :
  decodes fs (ino fd) ->
  _fd self = Some (at_eof fs fd) ->
  read_loop (S k) fs self acc
  = match stat_ino fs (path self) with
    | Some current_inode =>
        if bool_decide (Some current_inode ≠ _inode self)
        then read_loop k fs
               (open fs (with_fd self (Some (close_fd (at_eof fs fd))))) acc
        else (acc, self, Returned)
    | None => (acc, self, Returned)
    end.
Proof.
  intros Hdec Hfd. cbn [read_loop]. rewrite Hfd. cbn [closed at_eof].
  change {| ino := ino fd;
            pos := pos fd + String.length (str_drop (pos fd) (text_of fs fd));
            closed := false |} with (at_eof fs fd).
  rewrite (readline_at_eof fs fd Hdec).
  by rewrite with_fd_with_fd, (with_fd_same self _ Hfd).
Qed.

(** Without rotation [read] yields every line left in the file and
    returns. *)
Lemma read_no_rotation (fs : FileSystem) (self : FileTailer) (fd : TextIO) (k : nat) :
  _fd self = Some fd -> closed fd = false ->
  decodes fs (ino fd) ->
  stat_ino fs (path self) = _inode self ->
  let ls := lines (str_drop (pos fd) (text_of fs fd)) in
  read (length ls + S k) fs self
  = (map py.strip ls, with_fd self (Some (at_eof fs fd)), Returned).
Proof.
  intros Hfd Hopen Hdec Hstat ls. unfold read. rewrite Hfd.
  rewrite (read_loop_drain fs ls self fd [] (S k) Hfd Hopen Hdec eq_refl).
  rewrite (read_loop_eof fs (with_fd self (Some (at_eof fs fd))) fd _ k Hdec eq_refl).
  cbn [path _inode with_fd app]. rewrite Hstat.
  destruct (_inode self) as [i|]; [|done].
  by rewrite bool_decide_eq_false_2 by (intros Hc; by apply Hc).
Qed.

Lemma open_found (fs : FileSystem) (self : FileTailer) (i : N) (text : string) :
  dirents fs !! path self = Some i -> inodes fs !! i = Some text ->
  let p := if start_at_end self then String.length text else 0 in
  open fs self = reopened self i p p.
Proof. intros Hdir Htext. unfold open. by rewrite Hdir, Htext. Qed.

(** The rotation protocol, as the tailer follows it when it was
    constructed with [start_at_end=False]: what was left of the old file is
    yielded, the new file is reopened from its start, and every line of
    the new file is yielded. *)
Lemma read_rotation_from_start (fs : FileSystem) (self : FileTailer) (fd : TextIO)
    (new_ino : N) (new_text : string) (k : nat) :
  start_at_end self = false ->
  _fd self = Some fd -> closed fd = false ->
  dirents fs !! path self = Some new_ino ->
  Some new_ino <> _inode self ->
  inodes fs !! new_ino = Some new_text ->
  decodes fs (ino fd) -> decodes fs new_ino ->
  let old_ls := lines (str_drop (pos fd) (text_of fs fd)) in
  let new_ls := lines new_text in
  read (length old_ls + S (length new_ls + S k)) fs self
  = ((map py.strip old_ls ++ map py.strip new_ls)%list,
     reopened self new_ino (String.length new_text) 0,
     Returned).
Proof.
  intros Hstart Hfd Hopen Hdir Hne Hnew Hdec Hdec2 old_ls new_ls.
  unfold read. rewrite Hfd.
  rewrite (read_loop_drain fs old_ls self fd [] _ Hfd Hopen Hdec eq_refl).
  rewrite (read_loop_eof fs (with_fd self (Some (at_eof fs fd))) fd _ _ Hdec eq_refl).
  cbn [path _inode with_fd app]. unfold stat_ino. rewrite Hdir.
  rewrite bool_decide_eq_true_2 by done.
  rewrite with_fd_with_fd.
  set (closed_self := with_fd self (Some (close_fd (at_eof fs fd)))).
  rewrite (open_found fs closed_self new_ino new_text Hdir Hnew).
  cbn [start_at_end closed_self with_fd]. rewrite Hstart.
  set (fd2 := {| ino := new_ino; pos := 0; closed := false |}).
  set (self2 := reopened closed_self new_ino 0 0).
  assert (Htext : text_of fs fd2 = new_text) by (unfold text_of; simpl; by rewrite Hnew).
  assert (Hls2 : lines (str_drop (pos fd2) (text_of fs fd2)) = new_ls)
    by (by rewrite Htext).
  rewrite (read_loop_drain fs new_ls self2 fd2 _ (S k) eq_refl eq_refl Hdec2 Hls2).
  rewrite (read_loop_eof fs (with_fd self2 (Some (at_eof fs fd2))) fd2 _ k Hdec2 eq_refl).
  cbn [path _inode with_fd self2 reopened closed_self]. unfold stat_ino. rewrite Hdir.
  rewrite bool_decide_eq_false_2 by (intros Hc; by apply Hc).
  unfold reopened, at_eof. rewrite Htext. by cbn.
Qed.

(** The same event for a tailer constructed with the default
    [start_at_end=True], the only kind [add_path] creates: what was left of
    the old file is yielded, but [open] seeks to the end of the new file,
    and nothing the new file holds is yielded. *)
Lemma read_rotation_at_end (fs : FileSystem) (self : FileTailer) (fd : TextIO)
    (new_ino : N) (new_text : string) (k : nat) :
  start_at_end self = true ->
  _fd self = Some fd -> closed fd = false ->
  dirents fs !! path self = Some new_ino ->
  Some new_ino <> _inode self ->
  inodes fs !! new_ino = Some new_text ->
  decodes fs (ino fd) -> decodes fs new_ino ->
  let old_ls := lines (str_drop (pos fd) (text_of fs fd)) in
  read (length old_ls + S (S k)) fs self
  = (map py.strip old_ls,
     reopened self new_ino (String.length new_text) (String.length new_text),
     Returned).
Proof.
  intros Hstart Hfd Hopen Hdir Hne Hnew Hdec Hdec2 old_ls. unfold read. rewrite Hfd.
  rewrite (read_loop_drain fs old_ls self fd [] _ Hfd Hopen Hdec eq_refl).
  rewrite (read_loop_eof fs (with_fd self (Some (at_eof fs fd))) fd _ _ Hdec eq_refl).
  cbn [path _inode with_fd app]. unfold stat_ino. rewrite Hdir.
  rewrite bool_decide_eq_true_2 by done.
  rewrite with_fd_with_fd.
  set (closed_self := with_fd self (Some (close_fd (at_eof fs fd)))).
  rewrite (open_found fs closed_self new_ino new_text Hdir Hnew).
  cbn [start_at_end closed_self with_fd]. rewrite Hstart.
  set (n := String.length new_text).
  set (fd2 := {| ino := new_ino; pos := n; closed := false |}).
  set (self2 := reopened closed_self new_ino n n).
  assert (Htext : text_of fs fd2 = new_text) by (unfold text_of; simpl; by rewrite Hnew).
  assert (Hls2 : lines (str_drop (pos fd2) (text_of fs fd2)) = []).
  { rewrite Htext. subst fd2 n. cbn [pos]. by rewrite str_drop_length. }
  rewrite (read_loop_drain fs [] self2 fd2 _ (S k) eq_refl eq_refl Hdec2 Hls2).
  rewrite (read_loop_eof fs (with_fd self2 (Some (at_eof fs fd2))) fd2 _ k Hdec2 eq_refl).
  cbn [path _inode with_fd self2 reopened closed_self]. unfold stat_ino. rewrite Hdir.
  rewrite bool_decide_eq_false_2 by (intros Hc; by apply Hc).
  unfold reopened, at_eof. rewrite Htext. subst fd2 n. cbn [ino pos map].
  rewrite str_drop_length, app_nil_r. cbn [String.length]. by rewrite Nat.add_0_r.
Qed.

(** Draining up to a [readline] that raises or up to one that finds the
    file at its end. *)
Lemma read_loop_phase (fs : FileSystem) (m : nat) :
  forall (self : FileTailer) (fd : TextIO) (acc : list string),
    _fd self = Some fd -> closed fd = false ->
    String.length (str_drop (pos fd) (text_of fs fd)) <= m ->
    exists n acc' fd',
      (forall k, read_loop (n + S k) fs self acc
                 = (acc', with_fd self (Some fd'), RaisedUnicodeDecodeError))
      \/ (ino fd' = ino fd /\ closed fd' = false
          /\ readline fs fd' = (Some EmptyString, fd')
          /\ forall k, read_loop (n + k) fs self acc
                       = read_loop k fs (with_fd self (Some fd')) acc').
Proof.
  induction m as [|m IH]; intros self fd acc Hfd Hopen Hlen.
  - (* nothing left: the call raises or finds EOF *)
    assert (Hrest : str_drop (pos fd) (text_of fs fd) = EmptyString)
      by (destruct (str_drop (pos fd) (text_of fs fd)); [done | simpl in Hlen; lia]).
    destruct (decode_error fs (ino fd) (pos fd)) as [p|] eqn:Hdec.
    + exists 0, acc, {| ino := ino fd; pos := p; closed := closed fd |}. left.
      intros k. cbn [Nat.add read_loop]. rewrite Hfd, Hopen.
      unfold readline. by rewrite Hdec, Hopen.
    + exists 0, acc, fd. right. split_and!; [done | done | | ].
      * unfold readline. rewrite Hdec. cbv zeta. rewrite Hrest.
        cbn [take_line String.length]. rewrite Nat.add_0_r. by destruct fd.
      * intros k. cbn [Nat.add]. by rewrite (with_fd_same self fd Hfd).
  - destruct (decode_error fs (ino fd) (pos fd)) as [p|] eqn:Hdec.
    { exists 0, acc, {| ino := ino fd; pos := p; closed := closed fd |}. left.
      intros k. cbn [Nat.add read_loop]. rewrite Hfd, Hopen.
      unfold readline. by rewrite Hdec, Hopen. }
    destruct (take_line (str_drop (pos fd) (text_of fs fd))) as [|c line] eqn:Hline.
    { exists 0, acc, fd. right. split_and!; [done | done | | ].
      - unfold readline. rewrite Hdec. cbv zeta. rewrite Hline.
        cbn [String.length]. rewrite Nat.add_0_r. by destruct fd.
      - intros k. cbn [Nat.add]. by rewrite (with_fd_same self fd Hfd). }
    set (fd1 := {| ino := ino fd;
                   pos := pos fd + String.length (String c line);
                   closed := closed fd |}).
    assert (Hlen1 : String.length (str_drop (pos fd1) (text_of fs fd1)) <= m).
    { subst fd1. unfold text_of in *. cbn [ino pos]. rewrite str_drop_add.
      pose proof (take_line_length (str_drop (pos fd)
                    (default EmptyString (inodes fs !! ino fd)))) as Hle.
      rewrite Hline in Hle.
      pose proof (str_drop_length_le _ _ Hle) as Hsum.
      cbn [String.length] in *. lia. }
    destruct (IH (with_fd self (Some fd1)) fd1 (acc ++ [py.strip (String c line)])%list
                eq_refl Hopen Hlen1) as (n & acc' & fd' & Hcases).
    exists (S n), acc', fd'.
    assert (Hstep : forall j, read_loop (S j) fs self acc
                      = read_loop j fs (with_fd self (Some fd1))
                          (acc ++ [py.strip (String c line)])%list).
    { intros j. cbn [read_loop]. rewrite Hfd, Hopen.
      unfold readline. rewrite Hdec. cbv zeta. by rewrite Hline. }
    destruct Hcases as [Hraise | (Hino & Hcl & Hread & Hgo)]; [left | right].
    + intros k. cbn [Nat.add]. rewrite Hstep, Hraise. by rewrite with_fd_with_fd.
    + split_and!; [done | done | done |].
      intros k. cbn [Nat.add]. rewrite Hstep, Hgo. by rewrite with_fd_with_fd.
Qed.

(** The iteration that finds the file at its end. *)
Lemma read_loop_at_end (fs : FileSystem) (self : FileTailer) (fd : TextIO)
    (acc : list string) (k : nat) :
  _fd self = Some fd -> closed fd = false ->
  readline fs fd = (Some EmptyString, fd) ->
  read_loop (S k) fs self acc
  = match stat_ino fs (path self) with
    | Some current_inode =>
        if bool_decide (Some current_inode ≠ _inode self)
        then read_loop k fs (open fs (with_fd self (Some (close_fd fd)))) acc
        else (acc, self, Returned)
    | None => (acc, self, Returned)
    end.
Proof.
  intros Hfd Hopen Hread. cbn [read_loop]. rewrite Hfd, Hopen, Hread.
  by rewrite (with_fd_same self fd Hfd).
Qed.

(** With enough fuel the loop of [read] ends, and more fuel changes
    nothing: it returns, or it raises because a [readline] could not decode
    or because [open] could not take the rotated file. *)
Lemma read_loop_result (fs : FileSystem) (self : FileTailer) (fd : TextIO)
    (acc : list string) :
  _fd self = Some fd ->
  exists n r, snd r <> OutOfFuel /\ forall k, read_loop (n + k) fs self acc = r.
Proof.
  intros Hfd. destruct (closed fd) eqn:Hopen.
  { exists 1. eexists. split; [|intros k; cbn [Nat.add read_loop];
                                 rewrite Hfd, Hopen; reflexivity]. done. }
  destruct (read_loop_phase fs _ self fd acc Hfd Hopen (le_n _))
    as (n & acc1 & fd1 & [Hraise | (Hino & Hcl & Hread & Hgo)]).
  { exists (n + 1). eexists. split;
      [|intros k; rewrite <- Nat.add_assoc; cbn [Nat.add]; apply Hraise]. done. }
  set (self1 := with_fd self (Some fd1)).
  assert (Hend : forall k, read_loop (n + S k) fs self acc
            = match stat_ino fs (path self) with
              | Some current_inode =>
                  if bool_decide (Some current_inode ≠ _inode self)
                  then read_loop k fs (open fs (with_fd self (Some (close_fd fd1)))) acc1
                  else (acc1, self1, Returned)
              | None => (acc1, self1, Returned)
              end).
  { intros k. rewrite Hgo. subst self1.
    rewrite (read_loop_at_end fs (with_fd self (Some fd1)) fd1 acc1 k eq_refl Hcl Hread).
    cbn [path _inode with_fd]. by rewrite with_fd_with_fd. }
  destruct (stat_ino fs (path self)) as [cur|] eqn:Hstat.
  2: { exists (n + 1). eexists. split;
         [|intros k; rewrite <- Nat.add_assoc; cbn [Nat.add];
           rewrite Hend; reflexivity]. done. }
  destruct (decide (Some cur = _inode self)) as [Heq|Hne].
  { exists (n + 1). eexists. split;
      [|intros k; rewrite <- Nat.add_assoc; cbn [Nat.add]; rewrite Hend;
        rewrite bool_decide_eq_false_2 by (intros Hc; by apply Hc);
        reflexivity]. done. }
  set (closed_self := with_fd self (Some (close_fd fd1))) in *.
  unfold stat_ino in Hstat.
  destruct (inodes fs !! cur) as [text|] eqn:Htext.
  - (* the new file is taken *)
    pose proof (open_found fs closed_self cur text Hstat Htext) as Hreopen.
    cbn zeta in Hreopen.
    set (p := if start_at_end closed_self then String.length text else 0) in Hreopen.
    set (fd2 := {| ino := cur; pos := p; closed := false |}).
    set (self2 := reopened closed_self cur p p) in Hreopen.
    destruct (read_loop_phase fs _ self2 fd2 acc1 eq_refl eq_refl (le_n _))
      as (n2 & acc2 & fd3 & [Hraise2 | (Hino2 & Hcl2 & Hread2 & Hgo2)]).
    + exists (n + S (n2 + 1)). eexists. split.
      2: { intros k. rewrite <- Nat.add_assoc. cbn [Nat.add]. rewrite Hend.
           rewrite bool_decide_eq_true_2 by done. rewrite Hreopen.
           rewrite <- Nat.add_assoc. cbn [Nat.add]. apply Hraise2. }
      done.
    + exists (n + S (n2 + 1)). eexists. split.
      2: { intros k. rewrite <- Nat.add_assoc. cbn [Nat.add]. rewrite Hend.
           rewrite bool_decide_eq_true_2 by done. rewrite Hreopen.
           rewrite <- Nat.add_assoc. cbn [Nat.add]. rewrite Hgo2.
           rewrite (read_loop_at_end fs (with_fd self2 (Some fd3)) fd3 acc2 k
                      eq_refl Hcl2 Hread2).
           cbn [path _inode with_fd self2 reopened closed_self]. unfold stat_ino.
           rewrite Hstat.
           rewrite bool_decide_eq_false_2 by (intros Hc; by apply Hc).
           reflexivity. }
      done.
  - (* [open] fails: the handle stays closed and [readline] raises *)
    exists (n + 2). eexists. split.
    2: { intros k. rewrite <- Nat.add_assoc.
         cbn [Nat.add]. rewrite Hend.
         rewrite bool_decide_eq_true_2 by done.
         assert (Hsame : open fs closed_self = closed_self).
         { unfold open. cbn [path closed_self with_fd]. by rewrite Hstat, Htext. }
         rewrite Hsame. cbn. reflexivity. }
    done.
Qed.

Lemma read_loop_ends (fs : FileSystem) (self : FileTailer) (fd : TextIO)
    (acc : list string) :
  _fd self = Some fd ->
  exists n, forall k, snd (read_loop (n + k) fs self acc) <> OutOfFuel.
Proof.
  intros Hfd. destruct (read_loop_result fs self fd acc Hfd) as (n & r & Hr & Hn).
  exists n. intros k. by rewrite Hn.
Qed.

Lemma read_ends (fs : FileSystem) (self : FileTailer) :
  exists n, forall k, snd (read (n + k) fs self) <> OutOfFuel.
Proof.
  unfold read. destruct (_fd self) as [fd|] eqn:Hfd.
  - apply (read_loop_ends fs self fd [] Hfd).
  - destruct (_fd (open fs self)) as [fd|] eqn:Hfd'.
    + apply (read_loop_ends fs (open fs self) fd [] Hfd').
    + by exists 0.
Qed.

(** C2 on the code: the tailer that [add_path] registers sits at EOF of
    [/tmp/x.log]; after [mv x.log x.log.1; touch x.log; echo hello >> x.log]
    the next poll reopens the new file at its end, yields no event, and
    returns with the new inode recorded. The line "hello" is never read. *)
Theorem rotation_default_tailer_yields_nothing (fuel : nat) :
  fixtures.tailer_at_eof
  = reopened (FileTailer_default fixtures.x_log) 1 8 8
  /\ inodes fixtures.fs_after !! 2%N = Some ("hello" +:+ fixtures.nl)
  /\ poll_tailer (2 + fuel) fixtures.fs_after fixtures.x_log
       fixtures.tailer_at_eof fixtures.clock
     = ([], reopened (FileTailer_default fixtures.x_log) 2 6 6, Returned).
Proof.
  split_and!; [vm_compute; reflexivity .. |].
  assert (Hread : read (2 + fuel) fixtures.fs_after fixtures.tailer_at_eof
                  = ([], reopened (FileTailer_default fixtures.x_log) 2 6 6, Returned)).
  { apply (read_rotation_at_end fixtures.fs_after fixtures.tailer_at_eof
             {| ino := 1; pos := 8; closed := false |}
             2 ("hello" +:+ fixtures.nl) fuel);
      try (vm_compute; reflexivity); try (intros p; reflexivity).
    vm_compute. intros Heq. discriminate Heq. }
  unfold poll_tailer. by rewrite Hread.
Qed.

(** The same poll with a tailer constructed with [start_at_end=False]
    follows the rotation protocol and yields the line. *)
Lemma rotation_from_start_yields_hello (fuel : nat) :
  poll_tailer (3 + fuel) fixtures.fs_after fixtures.x_log
    fixtures.tailer_from_start fixtures.clock
  = ([{| source_path := fixtures.x_log; content := "hello";
         timestamp := fixtures.clock 0 |}],
     {| path := fixtures.x_log; start_at_end := false;
        _fd := Some {| ino := 2; pos := 6; closed := false |};
        _inode := Some 2%N; _offset := 0 |},
     Returned).
Proof. vm_compute. reflexivity. Qed.

End Rotation.

(** * Further properties *)

(** ** The tailer: draining, appending, rotation, failure *)

Section Tailer.
Import watcher.

Lemma lines_concat (s : string) : foldr String.append EmptyString (lines s) = s.
Proof.
  induction s as [|c s IH]; [done|]. cbn [lines].
  destruct (Ascii.eqb c newline); [cbn; by rewrite IH|].
  destruct (lines s) as [|l rest] eqn:Hl.
  - apply lines_nil in Hl. by subst s.
  - cbn [foldr] in *.
    change (String c l +:+ foldr String.append EmptyString rest)
      with (String c (l +:+ foldr String.append EmptyString rest)).
    by rewrite IH.
Qed.

Lemma str_drop_app (a b : string) : str_drop (String.length a) (a +:+ b) = b.
Proof. induction a as [|c a IH]; [by destruct b | exact IH]. Qed.

Lemma string_app_length (a b : string) :
  String.length (a +:+ b) = String.length a + String.length b.
Proof. induction a as [|c a IH]; [done|]. cbn. by rewrite <- IH. Qed.

(** X1: while the path still names the inode the tailer holds and what
    is read of it decodes, [read] yields every line left in the file,
    stripped and in file order, loses no text (the lines are the rest of
    the file cut after each newline), leaves the handle at EOF and
    returns. *)
Theorem read_yields_remaining_lines (fs : FileSystem) (self : FileTailer)
    (fd : TextIO) (k : nat) :
  _fd self = Some fd -> closed fd = false ->
  decodes fs (ino fd) ->
  stat_ino fs (path self) = _inode self ->
  let rest := str_drop (pos fd) (text_of fs fd) in
  read (length (lines rest) + S k) fs self
  = (map py.strip (lines rest), with_fd self (Some (at_eof fs fd)), Returned)
  /\ foldr String.append EmptyString (lines rest) = rest
  /\ str_drop (pos (at_eof fs fd)) (text_of fs fd) = EmptyString.
Proof.
  intros Hfd Hopen Hdec Hstat rest. split_and!.
  - apply (read_no_rotation fs self fd k Hfd Hopen Hdec Hstat).
  - apply lines_concat.
  - unfold at_eof. cbn [pos]. apply str_drop_to_end.
Qed.

Lemma read_yields_remaining_lines_witness :
  read 2 fixtures.fs_before samples.tailer_started
  = (["started"],
     with_fd samples.tailer_started
       (Some {| ino := 1; pos := 8; closed := false |}),
     Returned).
Proof.
  destruct (read_yields_remaining_lines fixtures.fs_before samples.tailer_started
              {| ino := 1; pos := 0; closed := false |} 0) as (Hread & _);
    [vm_compute; reflexivity .. |].
  exact Hread.
Defined.

(** X2: lines appended between two polls are yielded exactly once. A
    tailer that reads a file, and reads it again after text was appended,
    yields in the second read the lines of the appended text and nothing
    of what the first read yielded; with nothing appended the second read
    yields nothing. Both reads decode what they read. *)
Theorem read_after_append (fs1 fs2 : FileSystem) (self : FileTailer) (fd : TextIO)
    (old added : string) (k1 k2 : nat) :
  _fd self = Some fd -> closed fd = false ->
  pos fd <= String.length old ->
  inodes fs1 !! ino fd = Some old ->
  inodes fs2 !! ino fd = Some (old +:+ added) ->
  decodes fs1 (ino fd) -> decodes fs2 (ino fd) ->
  stat_ino fs1 (path self) = _inode self ->
  stat_ino fs2 (path self) = _inode self ->
  let ls1 := lines (str_drop (pos fd) old) in
  let ls2 := lines added in
  let first := read (length ls1 + S k1) fs1 self in
  let second := read (length ls2 + S k2) fs2 (snd (fst first)) in
  fst (fst first) = map py.strip ls1
  /\ snd first = Returned
  /\ fst (fst second) = map py.strip ls2
  /\ snd second = Returned
  /\ _fd (snd (fst second))
     = Some {| ino := ino fd;
               pos := String.length old + String.length added;
               closed := false |}.
Proof.
  intros Hfd Hopen Hpos Hold Hnew Hdec1 Hdec2 Hst1 Hst2 ls1 ls2 first second.
  assert (Ht1 : text_of fs1 fd = old) by (unfold text_of; by rewrite Hold).
  assert (Hfirst : first = (map py.strip ls1, with_fd self (Some (at_eof fs1 fd)),
                            Returned)).
  { subst first ls1. rewrite <- Ht1.
    apply (read_no_rotation fs1 self fd k1 Hfd Hopen Hdec1 Hst1). }
  set (fd1 := at_eof fs1 fd) in *.
  assert (Hpos1 : pos fd1 = String.length old).
  { subst fd1. unfold at_eof. cbn [pos]. rewrite Ht1.
    apply str_drop_length_le, Hpos. }
  assert (Ht2 : text_of fs2 fd1 = old +:+ added)
    by (unfold text_of; subst fd1; cbn [ino at_eof]; by rewrite Hnew).
  assert (Hrest : str_drop (pos fd1) (text_of fs2 fd1) = added)
    by (rewrite Ht2, Hpos1; apply str_drop_app).
  assert (Hsecond : second = (map py.strip ls2,
                              with_fd (with_fd self (Some fd1)) (Some (at_eof fs2 fd1)),
                              Returned)).
  { subst second. rewrite Hfirst. cbn [fst snd]. subst ls2. rewrite <- Hrest.
    by apply (read_no_rotation fs2 (with_fd self (Some fd1)) fd1 k2). }
  rewrite Hfirst, Hsecond. cbn [fst snd with_fd _fd].
  split_and!; try done.
  unfold at_eof. rewrite Hrest, Hpos1. by subst fd1.
Qed.

Lemma read_after_append_witness :
  let first := read 2 fixtures.fs_before samples.tailer_started in
  let second := read 2 samples.fs_appended (snd (fst first)) in
  fst (fst first) = ["started"] /\ fst (fst second) = ["next"].
Proof.
  cbv zeta.
  destruct (read_after_append fixtures.fs_before samples.fs_appended
              samples.tailer_started {| ino := 1; pos := 0; closed := false |}
              ("started" +:+ fixtures.nl) ("next" +:+ fixtures.nl) 0 0)
    as (H1 & _ & H2 & _);
    [vm_compute; reflexivity | reflexivity | vm_compute; lia
    | vm_compute; reflexivity .. |].
  split; [exact H1 | exact H2].
Defined.

End Tailer.

Section TailerEdges.
Import watcher.

(** X3: a tailer constructed with [start_at_end=False] follows the rotation
    protocol. When at EOF the path names another inode and what is read of
    both files decodes, it yields what was left of the old file, reopens the
    new file from its start, yields every line of the new file, records the
    new inode and returns. *)
Theorem rotation_from_start_keeps_every_line (fs : FileSystem) (self : FileTailer)
    (fd : TextIO) (new_ino : N) (new_text : string) (k : nat) :
  start_at_end self = false ->
  _fd self = Some fd -> closed fd = false ->
  dirents fs !! path self = Some new_ino ->
  Some new_ino <> _inode self ->
  inodes fs !! new_ino = Some new_text ->
  decodes fs (ino fd) -> decodes fs new_ino ->
  let old_ls := lines (str_drop (pos fd) (text_of fs fd)) in
  let new_ls := lines new_text in
  read (length old_ls + S (length new_ls + S k)) fs self
  = ((map py.strip old_ls ++ map py.strip new_ls)%list,
     reopened self new_ino (String.length new_text) 0,
     Returned)
  /\ foldr String.append EmptyString new_ls = new_text.
Proof.
  intros Hstart Hfd Hopen Hdir Hne Hnew Hdec Hdec2 old_ls new_ls. split.
  - by apply read_rotation_from_start.
  - apply lines_concat.
Qed.

Lemma rotation_from_start_keeps_every_line_witness :
  read 3 fixtures.fs_after fixtures.tailer_from_start
  = (["hello"], reopened fixtures.tailer_from_start 2 6 0, Returned).
Proof.
  destruct (rotation_from_start_keeps_every_line fixtures.fs_after
              fixtures.tailer_from_start {| ino := 1; pos := 8; closed := false |}
              2 ("hello" +:+ fixtures.nl) 0) as (Hread & _);
    [first [vm_compute; reflexivity
           | vm_compute; intros Heq; discriminate Heq] .. |].
  exact Hread.
Defined.

(** X4: [read] terminates. On every file system and every tailer there is
    an amount of fuel from which on the result no longer depends on the
    fuel and is not a fuel shortage: the generator returns or raises. *)
Theorem read_terminates (fs : FileSystem) (self : FileTailer) :
  exists n r, snd r <> OutOfFuel /\ forall k, read (n + k) fs self = r.
Proof.
  unfold read. destruct (_fd self) as [fd|] eqn:Hfd.
  - apply (read_loop_result fs self fd [] Hfd).
  - destruct (_fd (open fs self)) as [fd|] eqn:Hfd'.
    + apply (read_loop_result fs (open fs self) fd [] Hfd').
    + exists 0. eexists. split; [|intros k; reflexivity]. done.
Qed.

(** X5: when the path was rotated to a file that [open] fails on, [read]
    yields what was left of the old file (which decodes) and then raises
    [ValueError]: the handle was closed before the failed reopen and is
    read again. The tailer keeps the closed handle, so every later [read]
    raises at once, on any file system. *)
Theorem read_raises_after_failed_reopen (fs : FileSystem) (self : FileTailer)
    (fd : TextIO) (new_ino : N) (k : nat) :
  _fd self = Some fd -> closed fd = false ->
  dirents fs !! path self = Some new_ino ->
  Some new_ino <> _inode self ->
  inodes fs !! new_ino = None ->
  decodes fs (ino fd) ->
  let old_ls := lines (str_drop (pos fd) (text_of fs fd)) in
  let stuck := with_fd self (Some (close_fd (at_eof fs fd))) in
  let err := Raised (py.ValueError "I/O operation on closed file.") in
  read (length old_ls + S (S k)) fs self = (map py.strip old_ls, stuck, err)
  /\ (forall fs' fuel, read (S fuel) fs' stuck = ([], stuck, err)).
Proof.
  intros Hfd Hopen Hdir Hne Hnone Hdec old_ls stuck err. split.
  - unfold read. rewrite Hfd.
    rewrite (read_loop_drain fs old_ls self fd [] _ Hfd Hopen Hdec eq_refl).
    rewrite (read_loop_eof fs (with_fd self (Some (at_eof fs fd))) fd _ _ Hdec eq_refl).
    cbn [path _inode with_fd app]. unfold stat_ino. rewrite Hdir.
    rewrite bool_decide_eq_true_2 by done. rewrite with_fd_with_fd. fold stuck.
    assert (Hsame : open fs stuck = stuck).
    { unfold open. cbn [path stuck with_fd]. by rewrite Hdir, Hnone. }
    rewrite Hsame. reflexivity.
  - intros fs' fuel. reflexivity.
Qed.

Lemma read_raises_after_failed_reopen_witness :
  snd (read 2 samples.fs_unreadable fixtures.tailer_at_eof)
  = Raised (py.ValueError "I/O operation on closed file.")
  /\ snd (read 1 fixtures.fs_after (snd (fst (read 2 samples.fs_unreadable
                                                 fixtures.tailer_at_eof))))
     = Raised (py.ValueError "I/O operation on closed file.").
Proof.
  destruct (read_raises_after_failed_reopen samples.fs_unreadable
              fixtures.tailer_at_eof {| ino := 1; pos := 8; closed := false |} 3 0)
    as (Hread & Hstuck);
    [first [vm_compute; reflexivity
           | vm_compute; intros Heq; discriminate Heq] .. |].
  cbv zeta in Hread, Hstuck. split.
  - exact (f_equal snd Hread).
  - exact (f_equal snd (Hstuck fixtures.fs_after 0)).
Defined.



End TailerEdges.

(** ** What the watcher emits and how it registers tailers *)

Section Emitted.
Import watcher.

Lemma isspace_newline : py.isspace newline = true.
Proof. reflexivity. Qed.

Lemma take_line_newline_only_last (s : string) : aux.newline_only_last (take_line s) = true.
Proof.
  induction s as [|c s IH]; [done|]. cbn [take_line].
  destruct (Ascii.eqb c newline) eqn:Hc; cbn [aux.newline_only_last]; by rewrite Hc.
Qed.

Lemma lstrip_newline_only_last (s : string) :
  aux.newline_only_last s = true -> aux.newline_only_last (py.lstrip s) = true.
Proof.
  induction s as [|c s IH]; [done|]. intros Hs. cbn [py.lstrip].
  destruct (py.isspace c); [|done]. apply IH.
  cbn [aux.newline_only_last] in Hs.
  destruct (Ascii.eqb c newline); [by destruct s|done].
Qed.

Lemma rstrip_no_newline (s : string) :
  aux.newline_only_last s = true ->
  aux.no_newline (py.rstrip s) = true.
Proof.
  induction s as [|c s IH]; [done|]. cbn [aux.newline_only_last py.rstrip].
  destruct (Ascii.eqb c newline) eqn:Hc.
  - destruct s; [|done]. intros _. apply Ascii.eqb_eq in Hc. subst c.
    cbn [py.rstrip]. by rewrite isspace_newline.
  - intros Hs. specialize (IH Hs). unfold aux.no_newline in *.
    destruct (py.rstrip s) as [|c' r].
    + destruct (py.isspace c); [done|]. cbn [models.all_chars]. by rewrite Hc.
    + cbn [models.all_chars] in *. by rewrite Hc.
Qed.

Lemma rstrip_idem (s : string) : py.rstrip (py.rstrip s) = py.rstrip s.
Proof.
  induction s as [|c s IH]; [done|]. cbn [py.rstrip].
  destruct (py.rstrip s) as [|c' r] eqn:Hr.
  - destruct (py.isspace c) eqn:Hc; [done|]. cbn [py.rstrip]. by rewrite Hc.
  - cbn [py.rstrip] in *. rewrite IH. done.
Qed.

Lemma lstrip_rstrip_lstrip (s : string) :
  py.lstrip (py.rstrip (py.lstrip s)) = py.rstrip (py.lstrip s).
Proof.
  induction s as [|c s IH]; [done|]. cbn [py.lstrip].
  destruct (py.isspace c) eqn:Hc; [exact IH|].
  cbn [py.rstrip]. destruct (py.rstrip s); [rewrite Hc|]; cbn [py.lstrip]; by rewrite Hc.
Qed.

Lemma strip_idem (s : string) : py.strip (py.strip s) = py.strip s.
Proof. unfold py.strip. by rewrite lstrip_rstrip_lstrip, rstrip_idem. Qed.

Lemma strip_take_line_no_newline (s : string) :
  aux.no_newline (py.strip (take_line s)) = true.
Proof.
  apply rstrip_no_newline, lstrip_newline_only_last, take_line_newline_only_last.
Qed.

Lemma lstrip_starts (s : string) : aux.starts_with_space (py.lstrip s) = false.
Proof.
  induction s as [|c s IH]; [done|]. cbn [py.lstrip].
  by destruct (py.isspace c) eqn:Hc; [|cbn [aux.starts_with_space]].
Qed.

Lemma rstrip_starts (s : string) :
  aux.starts_with_space s = false -> aux.starts_with_space (py.rstrip s) = false.
Proof.
  destruct s as [|c s]; [done|]. cbn [aux.starts_with_space py.rstrip]. intros Hc.
  destruct (py.rstrip s); [by rewrite Hc | done].
Qed.

Lemma rstrip_ends (s : string) : aux.ends_with_space (py.rstrip s) = false.
Proof.
  induction s as [|c s IH]; [done|]. cbn [py.rstrip].
  destruct (py.rstrip s) as [|c' r].
  - by destruct (py.isspace c) eqn:Hc; [|cbn [aux.ends_with_space]].
  - exact IH.
Qed.

Lemma strip_ends (s : string) :
  aux.starts_with_space (py.strip s) = false
  /\ aux.ends_with_space (py.strip s) = false.
Proof.
  unfold py.strip. split; [apply rstrip_starts, lstrip_starts | apply rstrip_ends].
Qed.

Lemma read_loop_yields_clean (P : string -> Prop) (fs : FileSystem) :
  (forall s, P (py.strip (take_line s))) ->
  forall fuel self acc,
    Forall P acc -> Forall P (fst (fst (read_loop fuel fs self acc))).
Proof.
  intros HP. induction fuel as [|fuel IH]; intros self acc Hacc; [done|].
  cbn [read_loop]. destruct (_fd self) as [fd|]; [|done].
  destruct (closed fd); [done|]. unfold readline.
  destruct (decode_error fs (ino fd) (pos fd)); [done|]. cbv zeta.
  destruct (take_line (str_drop (pos fd) (text_of fs fd))) as [|c line] eqn:Hline.
  - destruct (stat_ino fs _); [|done]. case_bool_decide; [by apply IH | done].
  - apply IH. apply Forall_app. split; [done|]. constructor; [|done].
    rewrite <- Hline. apply HP.
Qed.

(** X7: every line [read] yields, on any file system, from any tailer and
    with any fuel, also when the call ends by raising, contains no newline
    and has no white space at either end: neither its first nor its last
    character is white space, and stripping it again changes nothing. *)
Theorem read_yields_stripped_lines (fuel : nat) (fs : FileSystem) (self : FileTailer) :
  Forall (fun line =>
            aux.no_newline line = true
            /\ aux.starts_with_space line = false
            /\ aux.ends_with_space line = false
            /\ py.strip line = line)
    (fst (fst (read fuel fs self))).
Proof.
  unfold read.
  assert (HP : forall s,
    aux.no_newline (py.strip (take_line s)) = true
    /\ aux.starts_with_space (py.strip (take_line s)) = false
    /\ aux.ends_with_space (py.strip (take_line s)) = false
    /\ py.strip (py.strip (take_line s)) = py.strip (take_line s))
    by (intros s; split_and!;
          [apply strip_take_line_no_newline | apply strip_ends
          | apply strip_ends | apply strip_idem]).
  destruct (_fd self); [by apply read_loop_yields_clean|].
  destruct (_fd (open fs self)); [by apply read_loop_yields_clean | done].
Qed.

Lemma events_of_spec (p : string) (lines : list string) (clock : nat -> Q) (k : nat) :
  map content (events_of p lines clock k)
  = filter (fun line => line <> EmptyString) lines
  /\ Forall (fun e => source_path e = p) (events_of p lines clock k)
  /\ map timestamp (events_of p lines clock k)
     = map clock (seq k (length (events_of p lines clock k))).
Proof.
  revert k. induction lines as [|line lines IH]; intros k; [by split_and!|].
  cbn [events_of]. destruct line as [|c line].
  - rewrite filter_cons_False by (intros Hc; by apply Hc). apply IH.
  - destruct (IH (S k)) as (IH1 & IH2 & IH3).
    rewrite filter_cons_True by done. cbn [map length seq].
    split_and!; [by rewrite IH1 | by constructor | by rewrite IH3].
Qed.

(** X8: one poll of a tailer turns the lines read into events in the order
    read, one per non-empty line and none for an empty one (a line of white
    space only is read as empty); each carries the path it was polled
    under, a content without newline whose first and last characters are
    not white space, and the clock readings in calling order. *)
Theorem poll_tailer_events (fuel : nat) (fs : FileSystem) (p : string)
    (tailer : FileTailer) (clock : nat -> Q) :
  let events := fst (fst (poll_tailer fuel fs p tailer clock)) in
  map content events
  = filter (fun line => line <> EmptyString) (fst (fst (read fuel fs tailer)))
  /\ Forall (fun e => source_path e = p
                      /\ content e <> EmptyString
                      /\ aux.starts_with_space (content e) = false
                      /\ aux.ends_with_space (content e) = false
                      /\ py.strip (content e) = content e
                      /\ aux.no_newline (content e) = true) events
  /\ map timestamp events = map clock (seq 0 (length events))
  /\ snd (fst (poll_tailer fuel fs p tailer clock)) = snd (fst (read fuel fs tailer)).
Proof.
  unfold poll_tailer.
  pose proof (read_yields_stripped_lines fuel fs tailer) as Hclean.
  destruct (read fuel fs tailer) as [[lines tailer'] e]. cbn [fst snd] in *.
  destruct (events_of_spec p lines clock 0) as (Hc & Hp & Ht).
  split_and!; [exact Hc | | exact Ht | done].
  apply Forall_forall. intros ev Hev.
  assert (Hin : content ev ∈ filter (fun line => line <> EmptyString) lines).
  { rewrite <- Hc. apply list_elem_of_fmap. eauto. }
  apply list_elem_of_filter in Hin as [Hne Hin].
  rewrite Forall_forall in Hclean. rewrite Forall_forall in Hp.
  destruct (Hclean _ Hin) as (Hnl & Hs & He & Hstrip). split_and!; auto.
Qed.

Lemma fold_add_path_lookup (paths : list string) (w : LogWatcher) (p : string) :
  tailers (fold_left add_path paths w) !! p
  = match tailers w !! p with
    | Some t => Some t
    | None => if bool_decide (p ∈ paths) then Some (FileTailer_default p) else None
    end.
Proof.
  revert w. induction paths as [|q paths IH]; intros w; cbn [fold_left].
  - by destruct (tailers w !! p).
  - rewrite IH. destruct (decide (q = p)) as [->|Hne].
    + destruct (tailers w !! p) as [t|] eqn:Hp.
      * by rewrite (add_path_present w p t Hp), Hp.
      * rewrite (add_path_absent w p Hp), lookup_insert_eq.
        rewrite bool_decide_eq_true_2; [done | by left].
    + rewrite (add_path_other w q p Hne).
      destruct (tailers w !! p); [done|].
      rewrite (bool_decide_ext (p ∈ paths) (p ∈ q :: paths)); [done|].
      rewrite elem_of_cons. naive_solver.
Qed.

(** X9: [LogWatcher(paths)] registers a tailer for the listed paths and no
    other, one per path however often it is listed, and each is a fresh
    tailer for that path: not opened, with [start_at_end] set. *)
Theorem new_LogWatcher_tailers (paths : list string) (p : string) :
  tailers (new_LogWatcher paths) !! p
  = (if bool_decide (p ∈ paths) then Some (FileTailer_default p) else None)
  /\ dom (tailers (new_LogWatcher paths)) = list_to_set paths
  /\ size (tailers (new_LogWatcher paths)) = length (remove_dups paths).
Proof.
  split_and!.
  - unfold new_LogWatcher. rewrite fold_add_path_lookup. cbn [tailers].
    by rewrite lookup_empty.
  - apply new_LogWatcher_dom.
  - rewrite <- size_dom, new_LogWatcher_dom.
    assert (Hset : list_to_set paths =@{gset string} list_to_set (remove_dups paths)).
    { apply set_eq. intros x. by rewrite !elem_of_list_to_set, elem_of_remove_dups. }
    rewrite Hset. apply size_list_to_set, NoDup_remove_dups.
Qed.

(** X10: [add_path] with a path that has no tailer yet registers a fresh
    default tailer under it and grows the table by one; with any path, it
    leaves the tailer of every other path as it was. *)
Theorem add_path_registers_fresh (self : LogWatcher) (p : string) :
  (tailers self !! p = None ->
     tailers (add_path self p) !! p = Some (FileTailer_default p)
     /\ size (tailers (add_path self p)) = S (size (tailers self)))
  /\ (forall q, q <> p -> tailers (add_path self p) !! q = tailers self !! q).
Proof.
  split.
  - intros Hp. rewrite (add_path_absent self p Hp). split.
    + apply lookup_insert_eq.
    + by apply map_size_insert_None.
  - intros q Hq. by apply add_path_other.
Qed.

(** X11: [close] forgets the position. The first [read] after a [close]
    (or of a tailer never opened) opens the file named by the path anew: a
    default tailer starts at the end and yields nothing of what the file
    holds, read or unread; a tailer with [start_at_end=False] yields the
    whole file again from its first line, as long as it decodes. *)
Theorem read_after_close (fs : FileSystem) (self : FileTailer) (i : N)
    (text : string) (k : nat) :
  dirents fs !! path self = Some i ->
  inodes fs !! i = Some text ->
  decodes fs i ->
  let p := if start_at_end self then String.length text else 0 in
  let ls := if start_at_end self then [] else lines text in
  read (length ls + S k) fs (close self)
  = (map py.strip ls, reopened self i (String.length text) p, Returned).
Proof.
  intros Hdir Htext Hdec p ls.
  assert (Hfd : _fd (close self) = None)
    by (unfold close; by destruct (_fd self) eqn:E).
  assert (Hpath : path (close self) = path self)
    by (unfold close; by destruct (_fd self) eqn:E).
  assert (Hstart : start_at_end (close self) = start_at_end self)
    by (unfold close; by destruct (_fd self) eqn:E).
  rewrite <- Hpath in Hdir.
  pose proof (open_found fs (close self) i text Hdir Htext) as Hopen.
  cbn zeta in Hopen. rewrite Hstart in Hopen. fold p in Hopen.
  set (fd2 := {| ino := i; pos := p; closed := false |}).
  set (self2 := reopened (close self) i p p) in *.
  assert (Ht : text_of fs fd2 = text) by (unfold text_of; cbn; by rewrite Htext).
  assert (Hls : lines (str_drop (pos fd2) (text_of fs fd2)) = ls).
  { rewrite Ht. subst fd2 p ls. cbn [pos].
    destruct (start_at_end self); [by rewrite str_drop_length | done]. }
  assert (Hread : read (length ls + S k) fs (close self)
                  = read (length ls + S k) fs self2).
  { unfold read at 1. rewrite Hfd, Hopen. reflexivity. }
  rewrite Hread, <- Hls.
  rewrite (read_no_rotation fs self2 fd2 k eq_refl eq_refl Hdec).
  - rewrite Hls. f_equal. f_equal. unfold at_eof, reopened. rewrite Ht.
    assert (Hend : pos fd2 + String.length (str_drop (pos fd2) text)
                   = String.length text).
    { apply str_drop_length_le. subst fd2 p. cbn [pos].
      destruct (start_at_end self); lia. }
    rewrite Hend. subst self2 fd2. unfold reopened, with_fd.
    cbn [path start_at_end _inode _offset ino]. by rewrite Hpath, Hstart.
  - subst self2. cbn [reopened path _inode]. unfold stat_ino. by rewrite Hdir.
Qed.

Lemma add_path_registers_fresh_witness :
  tailers (add_path (new_LogWatcher ["/var/log/syslog"]) "/var/log/auth.log")
    !! "/var/log/auth.log"
  = Some (FileTailer_default "/var/log/auth.log")
  /\ tailers (add_path (new_LogWatcher ["/var/log/syslog"]) "/var/log/auth.log")
       !! "/var/log/syslog"
     = Some (FileTailer_default "/var/log/syslog").
Proof.
  destruct (add_path_registers_fresh (new_LogWatcher ["/var/log/syslog"])
              "/var/log/auth.log") as (Hfresh & Hother).
  split.
  - apply Hfresh. reflexivity.
  - rewrite Hother by done. reflexivity.
Defined.

Lemma read_after_close_witness :
  read 1 fixtures.fs_before (close fixtures.tailer_at_eof)
  = ([], reopened fixtures.tailer_at_eof 1 8 8, Returned)
  /\ read 2 fixtures.fs_before (close fixtures.tailer_from_start)
     = (["started"], reopened fixtures.tailer_from_start 1 8 0, Returned).
Proof.
  split.
  - apply (read_after_close fixtures.fs_before fixtures.tailer_at_eof 1
             ("started" +:+ fixtures.nl) 0); vm_compute; reflexivity.
  - apply (read_after_close fixtures.fs_before fixtures.tailer_from_start 1
             ("started" +:+ fixtures.nl) 0); vm_compute; reflexivity.
Defined.

End Emitted.

(** ** The rule engine: when it answers and what the threat carries *)

Section EngineMore.
Context {Pattern Match : Type} `{Regex Pattern Match}.
Import engine.

Lemma first_match_is_Some (ps : list Pattern) (raw : string) :
  is_Some (first_match ps raw) <->
  exists pattern, In pattern ps /\ is_Some (search pattern raw).
Proof.
  split.
  - intros [m Hm]. destruct (first_match_Some ps raw m Hm) as (p & Hp & Hs).
    exists p. split; [done|]. rewrite Hs. eauto.
  - intros (p & Hp & Hs). induction ps as [|q ps IH]; [done|]. cbn [first_match].
    destruct (search q raw) eqn:Hq; [eauto|].
    destruct Hp as [->|Hp]; [|by apply IH].
    rewrite Hq in Hs. by destruct Hs.
Qed.

Lemma skipped_false (rule : Rule Pattern) (event : base.ParsedEvent) :
  skipped rule event = false <->
  source rule = "any" \/ source rule = base.source event.
Proof.
  unfold skipped.
  destruct (String.eqb_spec (source rule) "any") as [->|Hany];
    destruct (String.eqb_spec (source rule) (base.source event)) as [Heq|Hne];
    cbn; split; auto; try done. intros [?|?]; done.
Qed.

Lemma evaluate_rules_is_Some (rs : list (Rule Pattern)) (event : base.ParsedEvent)
    (env : models.Env) :
  is_Some (evaluate_rules rs event env) <->
  exists rule, In rule rs
    /\ (source rule = "any" \/ source rule = base.source event)
    /\ exists pattern, In pattern (patterns rule)
                       /\ is_Some (search pattern (base.raw event)).
Proof.
  split.
  - intros [t Ht].
    destruct (evaluate_rules_Some _ _ _ _ Ht)
      as (pre & rule & post & m & Hrs & _ & Hsk & Hfm & _).
    exists rule. split_and!.
    + rewrite Hrs. apply in_or_app. right. by left.
    + by apply skipped_false.
    + apply first_match_is_Some. eauto.
  - intros (rule & Hin & Hsrc & Hpat).
    apply (evaluate_rules_fires _ _ _ rule Hin).
    apply fires_true. split; [by apply skipped_false|].
    apply first_match_is_Some in Hpat. destruct Hpat as [m Hm]. eauto.
Qed.

(** X12: [evaluate] returns a threat exactly when some rule of the engine
    is not skipped for the event's source and has a pattern that is found
    in the raw line. In particular an engine without rules, and rules
    without patterns, never produce a threat. *)
Theorem evaluate_answers_iff_a_rule_fires (self : RuleEngine Pattern)
    (event : base.ParsedEvent) (env : models.Env) :
  (is_Some (fst (evaluate self event env)) <->
   exists rule, In rule (rules self)
     /\ (source rule = "any" \/ source rule = base.source event)
     /\ exists pattern, In pattern (patterns rule)
                        /\ is_Some (search pattern (base.raw event)))
  /\ (Forall (fun rule => patterns rule = []) (rules self) ->
      fst (evaluate self event env) = None).
Proof.
  split; [apply evaluate_rules_is_Some|].
  intros Hempty. unfold evaluate. cbn [fst]. apply evaluate_rules_None.
  eapply Forall_impl; [exact Hempty|]. intros rule Hp. apply fires_false.
  right. by rewrite Hp.
Qed.

(** X13: a threat returned by [evaluate] carries the source and the raw
    line of the event, the wall-clock reading of its creation, and no
    enrichment (geo, anomaly score, explanation, resolution); the rule it
    names applies to the event's source: the rule's [log_source] is "any"
    or equals the event's source. *)
Theorem evaluate_threat_provenance (self : RuleEngine Pattern)
    (event : base.ParsedEvent) (env : models.Env) (t : models.Threat) :
  fst (evaluate self event env) = Some t ->
  models.source t = base.source event
  /\ models.raw_log t = Some (base.raw event)
  /\ models.created_at t = models.now_isoformat env
  /\ models.attacker_geo t = None
  /\ models.anomaly_score t = None
  /\ models.llm_explanation t = None
  /\ models.resolved_at t = None
  /\ models.resolved_by t = None
  /\ exists rule, In rule (rules self)
       /\ models.rule_id t = Some (id rule)
       /\ (source rule = "any" \/ source rule = base.source event).
Proof.
  unfold evaluate. cbn [fst]. intros Ht.
  destruct (evaluate_rules_Some _ _ _ _ Ht)
    as (pre & rule & post & m & Hrs & _ & Hsk & _ & ->).
  split_and!; try reflexivity.
  exists rule. split_and!.
  - rewrite Hrs. apply in_or_app. right. by left.
  - reflexivity.
  - unfold skipped in Hsk.
    destruct (String.eqb_spec (source rule) "any") as [->|Hany]; [by left|].
    destruct (String.eqb_spec (source rule) (base.source event)); [by right|done].
Qed.

(** X14: the attacker address of a returned threat is taken, in this
    order of priority, from the named group [attacker_ip] of the match,
    from the named group [ip], from the event's field [ip]; an absent,
    unmatched or empty value is passed over. When all three are passed over
    the address is whatever the event's field [remote_addr] holds, absent
    and empty included. *)
Theorem evaluate_attacker_ip_priority (self : RuleEngine Pattern)
    (event : base.ParsedEvent) (env : models.Env) (t : models.Threat) :
  fst (evaluate self event env) = Some t ->
  exists rule m,
    In rule (rules self)
    /\ first_match (patterns rule) (base.raw event) = Some m
    /\ let a := mjoin (groupdict m !! "attacker_ip") in
       let b := mjoin (groupdict m !! "ip") in
       let c := base.data event !! "ip" in
       let d := base.data event !! "remote_addr" in
       (py.truthy a = true -> models.attacker_ip t = a)
       /\ (py.truthy a = false -> py.truthy b = true -> models.attacker_ip t = b)
       /\ (py.truthy a = false -> py.truthy b = false -> py.truthy c = true ->
           models.attacker_ip t = c)
       /\ (py.truthy a = false -> py.truthy b = false -> py.truthy c = false ->
           models.attacker_ip t = d).
Proof.
  unfold evaluate. cbn [fst]. intros Ht.
  destruct (evaluate_rules_Some _ _ _ _ Ht)
    as (pre & rule & post & m & Hrs & _ & _ & Hfm & ->).
  exists rule, m.
  split; [rewrite Hrs; apply in_or_app; right; by left|]. split; [done|].
  cbn [models.attacker_ip make_threat]. unfold attacker_ip_of, py.or_.
  split_and!.
  - intros Ha. by rewrite Ha, Ha, Ha.
  - intros Ha Hb. by rewrite Ha, Hb, Hb.
  - intros Ha Hb Hc. by rewrite Ha, Hb, Hc.
  - intros Ha Hb Hc. by rewrite Ha, Hb, Hc.
Qed.

(** X15: [evaluate] reads nothing of an event but its source, its raw
    line and the fields [ip] and [remote_addr]: two events that agree on
    these get the same answer, whatever their timestamps, type tags and
    other fields. *)
Theorem evaluate_reads_source_raw_and_addresses (self : RuleEngine Pattern)
    (event event' : base.ParsedEvent) (env : models.Env) :
  base.source event = base.source event' ->
  base.raw event = base.raw event' ->
  base.data event !! "ip" = base.data event' !! "ip" ->
  base.data event !! "remote_addr" = base.data event' !! "remote_addr" ->
  evaluate self event env = evaluate self event' env.
Proof.
  intros Hs Hr Hip Hra. unfold evaluate. f_equal.
  induction (rules self) as [|rule rs IH]; [done|]. cbn [evaluate_rules].
  unfold skipped. rewrite <- Hs, <- Hr, IH.
  destruct (_ && _); [done|].
  destruct (first_match (patterns rule) (base.raw event)); [|done].
  unfold make_threat, attacker_ip_of. by rewrite <- Hs, <- Hr, <- Hip, <- Hra.
Qed.

End EngineMore.

Section EngineMoreWitnesses.
Import engine.

Lemma evaluate_threat_provenance_witness :
  exists t,
    fst (evaluate fixtures.the_engine (fixtures.failed_login 0) (fixtures.env_of 1))
    = Some t
    /\ models.source t = "ssh"
    /\ models.rule_id t = Some "ssh-bf".
Proof.
  eexists. split; [vm_compute; reflexivity|].
  match goal with
  | |- models.source ?t = _ /\ _ =>
      assert (Ht : fst (evaluate fixtures.the_engine (fixtures.failed_login 0)
                          (fixtures.env_of 1)) = Some t)
        by (vm_compute; reflexivity);
      destruct (evaluate_threat_provenance fixtures.the_engine
                  (fixtures.failed_login 0) (fixtures.env_of 1) t Ht) as (Hsrc & _)
  end.
  split; [exact Hsrc | reflexivity].
Defined.

(** The rule's pattern has no named group, so the address is the parsed
    field [ip] of the event. *)
Lemma evaluate_attacker_ip_priority_witness :
  exists t,
    fst (evaluate fixtures.the_engine (fixtures.failed_login 0) (fixtures.env_of 1))
    = Some t
    /\ models.attacker_ip t = Some "10.0.0.5".
Proof.
  eexists. split; [vm_compute; reflexivity|].
  match goal with
  | |- models.attacker_ip ?t = _ =>
      assert (Ht : fst (evaluate fixtures.the_engine (fixtures.failed_login 0)
                          (fixtures.env_of 1)) = Some t)
        by (vm_compute; reflexivity);
      destruct (evaluate_attacker_ip_priority fixtures.the_engine
                  (fixtures.failed_login 0) (fixtures.env_of 1) t Ht)
        as (rule & m & _ & _ & _ & _ & Hc & _)
  end.
  apply Hc; reflexivity.
Defined.

Lemma evaluate_reads_source_raw_and_addresses_witness :
  evaluate fixtures.the_engine (fixtures.failed_login 0) (fixtures.env_of 1)
  = evaluate fixtures.the_engine samples2.failed_login_other_view (fixtures.env_of 1).
Proof.
  apply (evaluate_reads_source_raw_and_addresses fixtures.the_engine
           (fixtures.failed_login 0) samples2.failed_login_other_view);
    vm_compute; reflexivity.
Defined.

End EngineMoreWitnesses.

(** ** Threat identifiers and the store *)

Section ThreatIdMore.
Import models.

Lemma string_app_assoc (a b c : string) : (a +:+ b) +:+ c = a +:+ (b +:+ c).
Proof.
  induction a as [|x a IH]; [done|].
  change (String x ((a +:+ b) +:+ c) = String x (a +:+ (b +:+ c))). by rewrite IH.
Qed.

Lemma hex_fixed_acc (width : nat) (n : N) (acc : string) :
  hex_fixed width n acc = hex_fixed width n EmptyString +:+ acc.
Proof.
  revert n acc. induction width as [|w IH]; intros n acc; [done|].
  cbn [hex_fixed]. rewrite (IH _ (String _ acc)), (IH _ (String _ EmptyString)).
  by rewrite string_app_assoc.
Qed.

Lemma hex_fixed_split (a b : nat) (n : N) (acc : string) :
  hex_fixed (a + b) n acc = hex_fixed a (n / 16 ^ N.of_nat b) (hex_fixed b n acc).
Proof.
  revert n acc. induction b as [|b IH]; intros n acc.
  - rewrite Nat.add_0_r. cbn [hex_fixed]. by rewrite N.pow_0_r, N.div_1_r.
  - rewrite Nat.add_succ_r. cbn [hex_fixed]. rewrite IH.
    rewrite Nat2N.inj_succ, N.pow_succ_r', N.Div0.div_div. done.
Qed.

Lemma str_take_app (a b : string) : str_take (String.length a) (a +:+ b) = a.
Proof.
  induction a as [|c a IH]; [by destruct b|].
  change (String c (str_take (String.length a) (a +:+ b)) = String c a).
  by rewrite IH.
Qed.

Lemma string_app_inj_length (a a' b b' : string) :
  String.length a = String.length a' -> a +:+ b = a' +:+ b' -> a = a' /\ b = b'.
Proof.
  revert a'. induction a as [|c a IH]; intros [|c' a'] Hlen Heq; try done.
  change (String c (a +:+ b) = String c' (a' +:+ b')) in Heq.
  injection Heq as -> Heq. injection Hlen as Hlen.
  destruct (IH a' Hlen Heq) as [-> ->]. done.
Qed.

Lemma hex_digit_inj (d d' : N) :
  (d < 16)%N -> (d' < 16)%N -> hex_digit d = hex_digit d' -> d = d'.
Proof.
  intros Hd Hd'.
  destruct d as [|p]; [|do 4 (try destruct p as [p|p|])];
    try (exfalso; lia);
    (destruct d' as [|q]; [|do 4 (try destruct q as [q|q|])]);
    try (exfalso; lia);
    cbn; intros Heq; try reflexivity; discriminate Heq.
Qed.

(** Equal renderings on [width] digits mean equal values modulo
    [16^width]. *)
Lemma hex_fixed_inj (width : nat) (n n' : N) :
  hex_fixed width n EmptyString = hex_fixed width n' EmptyString ->
  (n mod 16 ^ N.of_nat width = n' mod 16 ^ N.of_nat width)%N.
Proof.
  revert n n'. induction width as [|w IH]; intros n n' Heq.
  - by rewrite N.pow_0_r, !N.mod_1_r.
  - cbn [hex_fixed] in Heq.
    rewrite (hex_fixed_acc w (n / 16)), (hex_fixed_acc w (n' / 16)) in Heq.
    apply string_app_inj_length in Heq as [Hhi Hlo];
      [|by rewrite !hex_fixed_length].
    injection Hlo as Hlo.
    apply hex_digit_inj in Hlo; [|by apply N.mod_lt..].
    apply IH in Hhi.
    rewrite Nat2N.inj_succ, N.pow_succ_r'.
    rewrite !(N.Div0.mod_mul_r _ 16). by rewrite Hlo, Hhi.
Qed.

(** X16: the default identifier keeps the 48 leading bits of the UUID and
    nothing else. Two draws of 128-bit UUIDs give the same threat id
    exactly when the UUIDs agree on their 48 most significant bits. *)
Theorem default_id_keeps_48_leading_bits (env env' : Env) :
  (uuid4_int env < 2 ^ 128)%N -> (uuid4_int env' < 2 ^ 128)%N ->
  (default_id env = default_id env'
   <-> (uuid4_int env / 2 ^ 80 = uuid4_int env' / 2 ^ 80)%N).
Proof.
  intros Hn Hn'.
  assert (Htake : forall n, str_take 12 (uuid_hex n)
                            = hex_fixed 12 (n / 2 ^ 80) EmptyString).
  { intros n. unfold uuid_hex.
    change 32 with (12 + 20).
    rewrite (hex_fixed_split 12 20 n EmptyString).
    rewrite (hex_fixed_acc 12).
    change (16 ^ N.of_nat 20)%N with (2 ^ 80)%N.
    pose proof (str_take_app (hex_fixed 12 (n / 2 ^ 80) EmptyString)
                  (hex_fixed 20 n EmptyString)) as Happ.
    by rewrite hex_fixed_length in Happ. }
  unfold default_id. rewrite !Htake. split.
  - intros Heq.
    apply (string_app_inj_length "THR-" "THR-") in Heq as [_ Heq]; [|done].
    apply hex_fixed_inj in Heq.
    change (16 ^ N.of_nat 12)%N with (2 ^ 48)%N in Heq.
    assert (Hb : forall n, (n < 2 ^ 128)%N -> (n / 2 ^ 80 < 2 ^ 48)%N).
    { intros n Hlt. apply N.Div0.div_lt_upper_bound.
      by change (2 ^ 80 * 2 ^ 48)%N with (2 ^ 128)%N. }
    by rewrite !N.mod_small in Heq by (by apply Hb).
  - by intros ->.
Qed.

Lemma default_id_keeps_48_leading_bits_witness :
  default_id (samples2.env_low 5) = default_id (samples2.env_low 123456789)
  /\ default_id (fixtures.env_of 1) <> default_id (fixtures.env_of 2).
Proof.
  split.
  - apply (default_id_keeps_48_leading_bits (samples2.env_low 5)
             (samples2.env_low 123456789)); vm_compute; reflexivity.
  - intros Heq.
    apply (default_id_keeps_48_leading_bits (fixtures.env_of 1) (fixtures.env_of 2))
      in Heq; [|vm_compute; reflexivity..].
    vm_compute in Heq. discriminate Heq.
Defined.

End ThreatIdMore.

Section StoreMore.
Import database.

#[local] Existing Instance created_desc_total.
#[local] Existing Instance created_desc_trans.

Lemma existsb_id_elem (ident : string) (rows : list models.Threat) :
  existsb (fun row => String.eqb (models.id row) ident) rows = true
  <-> ident ∈ models.id <$> rows.
Proof.
  induction rows as [|row rows IH]; cbn [existsb fmap list_fmap].
  - split; [done|]. by intros ?%elem_of_nil.
  - rewrite orb_true_iff, IH, elem_of_cons, String.eqb_eq. naive_solver.
Qed.

(** X17: [save_threat] keeps the identifiers of the table pairwise
    distinct. On an open store it raises exactly when the threat's id is
    already in the table; otherwise the table is the old one with the
    threat appended, and distinct ids before mean distinct ids after. *)
Theorem save_threat_keeps_ids_distinct (self : ThreatStore) (db : Connection)
    (threat : models.Threat) :
  _db self = Some db ->
  (models.id threat ∈ models.id <$> threats db ->
     save_threat self threat
     = py.Raise (py.IntegrityError "UNIQUE constraint failed: threats.id"))
  /\ (models.id threat ∉ models.id <$> threats db ->
      exists self',
        save_threat self threat = py.Ok self'
        /\ _db self' = Some {| threats := (threats db ++ [threat])%list |}
        /\ db_path self' = db_path self
        /\ (NoDup (models.id <$> threats db) ->
            NoDup (models.id <$> (threats db ++ [threat])%list))).
Proof.
  intros Hdb. unfold save_threat. rewrite Hdb.
  destruct (existsb _ (threats db)) eqn:Hex.
  - apply existsb_id_elem in Hex. split; [done|]. intros Hnot. by destruct Hnot.
  - assert (Hnot : models.id threat ∉ models.id <$> threats db).
    { intros Hin. apply existsb_id_elem in Hin. congruence. }
    split; [intros Hin; by destruct Hnot|]. intros _.
    eexists. split_and!; try reflexivity.
    intros Hnd. rewrite fmap_app. apply NoDup_app. split_and!; [done | |].
    + intros x Hx [->|[]%elem_of_nil]%elem_of_cons. done.
    + apply NoDup_singleton.
Qed.

Lemma save_threat_keeps_ids_distinct_witness :
  exists self',
    save_threat fixtures.store samples2.latest = py.Ok self'
    /\ save_threat self' samples2.latest
       = py.Raise (py.IntegrityError "UNIQUE constraint failed: threats.id").
Proof.
  destruct (save_threat_keeps_ids_distinct fixtures.store
              {| threats := [ fixtures.threat_at "THR-000000000001" "2024-01-01T10:00:00";
                              fixtures.threat_at "THR-000000000002" "2024-01-03T10:00:00";
                              fixtures.threat_at "THR-000000000003" "2024-01-02T10:00:00" ] |}
              samples2.latest eq_refl) as (_ & Hfresh).
  destruct Hfresh as (self' & Hsave & Hdb' & _ & _).
  { vm_compute. intros Hin. repeat (apply elem_of_cons in Hin as [Hin|Hin]; [discriminate Hin|]).
    by apply elem_of_nil in Hin. }
  exists self'. split; [exact Hsave|].
  destruct (save_threat_keeps_ids_distinct self' _ samples2.latest Hdb') as (Hdup & _).
  apply Hdup. cbn [threats]. rewrite fmap_app. apply elem_of_app. right. by left.
Defined.

Lemma string_ltb_not_leb (a b : string) :
  String.ltb a b = true -> String.leb b a = true -> False.
Proof.
  unfold String.ltb, String.leb. rewrite (String.compare_antisym b a).
  by destruct (String.compare a b).
Qed.

(** X18: saving then reading back. After a threat whose [created_at] is
    later than that of every stored row was saved, [get_threats(n)] with
    any [n >= 1] that fits 64 bits returns that threat first. *)
Theorem save_then_get_returns_threat_first (self : ThreatStore) (db : Connection)
    (threat : models.Threat) (n : Z) :
  _db self = Some db ->
  models.id threat ∉ models.id <$> threats db ->
  Forall (fun row => String.ltb (models.created_at row)
                       (models.created_at threat) = true) (threats db) ->
  (1 <= n)%Z -> fits_int64 n = true ->
  exists self' l,
    save_threat self threat = py.Ok self'
    /\ get_threats self' n = py.Ok (threat :: l).
Proof.
  intros Hdb Hfresh Hnewer Hn Hfit.
  destruct (save_threat_keeps_ids_distinct self db threat Hdb) as (_ & Hsave).
  destruct (Hsave Hfresh) as (self' & Hs & Hdb' & _ & _).
  exists self'. unfold get_threats. rewrite Hdb', Hfit. cbn [threats].
  set (rows := (threats db ++ [threat])%list).
  set (sorted := order_by_created_at_desc rows).
  assert (Hperm : sorted ≡ₚ rows) by apply order_by_created_at_desc_Permutation.
  assert (Hsorted : StronglySorted created_desc sorted)
    by apply order_by_created_at_desc_sorted.
  destruct sorted as [|h rest] eqn:Hs'.
  { apply Permutation_nil_l in Hperm. subst rows. by destruct (threats db). }
  assert (Hh : h = threat).
  { assert (Hin : h ∈ rows) by (rewrite <- Hperm; by left).
    subst rows. apply elem_of_app in Hin as [Hin|Hin].
    - exfalso. rewrite Forall_forall in Hnewer. specialize (Hnewer h Hin).
      assert (Ht : threat ∈ h :: rest)
        by (rewrite Hperm; apply elem_of_app; right; by left).
      apply elem_of_cons in Ht as [->|Ht].
      + apply (string_ltb_not_leb _ _ Hnewer). apply created_desc_refl.
      + apply StronglySorted_inv in Hsorted as [_ Hall].
        rewrite Forall_forall in Hall.
        apply (string_ltb_not_leb _ _ Hnewer). apply (Hall threat Ht).
    - by apply list_elem_of_singleton in Hin. }
  subst h. exists (take (Z.to_nat n - 1) rest). split; [done|].
  unfold sql_limit. rewrite (proj2 (Z.ltb_ge n 0)) by lia.
  replace (Z.to_nat n) with (S (Z.to_nat n - 1)) at 1 by lia. done.
Qed.

Lemma save_then_get_returns_threat_first_witness :
  exists self' l,
    save_threat fixtures.store samples2.latest = py.Ok self'
    /\ get_threats self' 1 = py.Ok (samples2.latest :: l).
Proof.
  apply (save_then_get_returns_threat_first fixtures.store
           {| threats := [ fixtures.threat_at "THR-000000000001" "2024-01-01T10:00:00";
                           fixtures.threat_at "THR-000000000002" "2024-01-03T10:00:00";
                           fixtures.threat_at "THR-000000000003" "2024-01-02T10:00:00" ] |}
           samples2.latest 1); [reflexivity | | | lia | reflexivity].
  - vm_compute. intros Hin.
    repeat (apply elem_of_cons in Hin as [Hin|Hin]; [discriminate Hin|]).
    by apply elem_of_nil in Hin.
  - repeat constructor.
Defined.

(** X19: [get_threats(n)] returns the newest rows. The result is the
    table's rows when [n] is negative and otherwise [min n (rows)] of them;
    together with the rows left out it is a rearrangement of the table, and
    no row left out has a later [created_at] than a row returned. *)
Theorem get_threats_returns_newest (self : ThreatStore) (n : Z)
    (l : list models.Threat) :
  get_threats self n = py.Ok l ->
  exists db rest,
    _db self = Some db
    /\ (l ++ rest)%list ≡ₚ threats db
    /\ length l = (if (n <? 0)%Z then length (threats db)
                   else Nat.min (Z.to_nat n) (length (threats db)))
    /\ (forall a b, a ∈ l -> b ∈ rest ->
          String.leb (models.created_at b) (models.created_at a) = true).
Proof.
  unfold get_threats. destruct (_db self) as [db|]; [|done].
  destruct (fits_int64 n); [|done]. intros [= <-].
  set (sorted := order_by_created_at_desc (threats db)).
  assert (Hperm : sorted ≡ₚ threats db) by apply order_by_created_at_desc_Permutation.
  assert (Hsorted : StronglySorted created_desc sorted)
    by apply order_by_created_at_desc_sorted.
  exists db. unfold sql_limit. destruct (n <? 0)%Z.
  - exists []. rewrite app_nil_r. split_and!; [done | done | by rewrite Hperm |].
    intros a b _ Hb. by apply elem_of_nil in Hb.
  - exists (drop (Z.to_nat n) sorted). rewrite take_drop.
    split_and!; [done | done | by rewrite length_take, Hperm |].
    intros a b Ha Hb. rewrite <- (take_drop (Z.to_nat n) sorted) in Hsorted.
    by apply (StronglySorted_app_1_elem_of _ _ _ a b) in Hsorted.
Qed.

Lemma get_threats_returns_newest_witness :
  exists l rest,
    get_threats fixtures.store 2 = py.Ok l
    /\ length l = 2
    /\ (l ++ rest)%list ≡ₚ
         [ fixtures.threat_at "THR-000000000001" "2024-01-01T10:00:00";
           fixtures.threat_at "THR-000000000002" "2024-01-03T10:00:00";
           fixtures.threat_at "THR-000000000003" "2024-01-02T10:00:00" ].
Proof.
  assert (Hget : exists l, get_threats fixtures.store 2 = py.Ok l)
    by (eexists; vm_compute; reflexivity).
  destruct Hget as [l Hl].
  destruct (get_threats_returns_newest fixtures.store 2 l Hl)
    as (db & rest & Hdb & Hperm & Hlen & _).
  injection Hdb as <-. exists l, rest. split_and!; [exact Hl | exact Hlen | exact Hperm].
Defined.

End StoreMore.

(** ** IPC: the success path and the client's view *)

Section IPCMore.
Import ipc.

(** X20: when the requested method is a key of the table and its handler
    returns, the handler is called with the request's params (an empty
    object when the request has none) and the response holds "jsonrpc":
    "2.0", the handler's result under "result", the request's id, and no
    "error". *)
Theorem process_request_returns_result
    (self : IPCServer) (request : gmap string json.value)
    (method : string) (h : handler) (result : json.value) :
  json.get request "method" = json.Str method ->
  handlers self !! method = Some h ->
  h (default (json.Obj ∅) (request !! "params")) = Returns result ->
  exists response,
    process_request self request = py.Ok response
    /\ response !! "jsonrpc" = Some (json.Str "2.0")
    /\ response !! "result" = Some result
    /\ response !! "id" = Some (default json.Null (request !! "id"))
    /\ response !! "error" = None
    /\ dom response = {["jsonrpc"; "result"; "id"]}.
Proof.
  intros Hm Hh Hret. unfold process_request. cbv zeta. rewrite Hm. cbn [contains getitem].
  rewrite Hh. rewrite bool_decide_eq_true_2 by eauto.
  unfold json.get_default. rewrite Hret. eexists. split; [reflexivity|].
  destruct (result_response_lookup result (json.get request "id"))
    as (E1 & E2 & E3 & E4).
  split_and!; try done.
Qed.

Lemma process_request_returns_result_witness :
  exists response,
    process_request fixtures.server
      (<["method" := json.Str "status"]> (<["id" := json.Int 7]> ∅))
    = py.Ok response
    /\ response !! "id" = Some (json.Int 7)
    /\ response !! "error" = None.
Proof.
  destruct (process_request_returns_result fixtures.server
              (<["method" := json.Str "status"]> (<["id" := json.Int 7]> ∅))
              "status" fixtures.handle_status
              (json.Obj (<["status" := json.Str "running"]>
                           (<["uptime" := json.Str "TODO"]>
                              (<["monitored_files" := json.Arr []]> ∅)))))
    as (response & Hr & _ & _ & Hid & Herr & _); [vm_compute; reflexivity ..|].
  exists response. split_and!; [exact Hr | exact Hid | exact Herr].
Defined.

(** X21: what a client call gets from a server. With the socket in place
    and request and response lines within the stream limit of 64 KiB,
    [IPCClient.call(method, params)] returns what the handler of [method]
    returned when called with [params] (an empty object for no params);
    it raises [RuntimeError] with the handler's message when the handler
    raised, and with "Method not found" when the table has no such method.
    A request line over the limit is never answered: the server drops the
    connection. A response line over the limit makes the client raise
    [LimitOverrunError], whatever the handler returned. Without the socket
    the call raises [ConnectionError]. *)
Theorem client_call_outcomes (encoded_length : json.value -> N) (server : IPCServer)
    (socket_path method : string) (params : option (gmap string json.value)) :
  let call := client.call encoded_length in
  let fits := client.fits encoded_length in
  let request := client.request_of method params in
  (fits request = true ->
   (forall response, process_request server request = py.Ok response ->
                     fits response = true) ->
   (forall (h : handler) result,
      handlers server !! method = Some h ->
      h (json.Obj (default ∅ params)) = Returns result ->
      call true socket_path server method params = client.Return result)
   /\ (forall (h : handler) msg,
         handlers server !! method = Some h ->
         h (json.Obj (default ∅ params)) = Raises msg ->
         call true socket_path server method params
         = client.Raise (client.RuntimeError (json.Str msg)))
   /\ (handlers server !! method = None ->
       call true socket_path server method params
       = client.Raise (client.RuntimeError (json.Str "Method not found"))))
  /\ (fits request = false ->
      call true socket_path server method params
      = client.Raise client.ConnectionDropped)
  /\ (fits request = true ->
      forall response, process_request server request = py.Ok response ->
        fits response = false ->
        call true socket_path server method params
        = client.Raise client.LimitOverrunError)
  /\ (exists msg, call false socket_path server method params
                  = client.Raise (client.ConnectionError msg)).
Proof.
  intros call fits request. subst call fits.
  assert (Hm : json.get request "method" = json.Str method)
    by (unfold request, client.request_of, json.get; by simplify_map_eq).
  assert (Hp : json.get_default request "params" (json.Obj ∅)
               = json.Obj (default ∅ params))
    by (unfold request, client.request_of, json.get_default; by simplify_map_eq).
  assert (Herr : forall code msg msg_id,
            client.read_response (error_response code msg msg_id)
            = client.Raise (client.RuntimeError (json.Str msg))).
  { intros code msg msg_id. unfold client.read_response.
    destruct (error_response_lookup code msg msg_id) as (_ & _ & -> & _).
    unfold error_object. by simplify_map_eq. }
  unfold client.call. cbn [negb]. fold request. split_and!.
  - intros Hreq Hresp. rewrite Hreq. cbn [negb].
    assert (Hgo : forall response,
              process_request server request = py.Ok response ->
              match process_request server request with
              | py.Ok response =>
                  if negb (client.fits encoded_length response)
                  then client.Raise client.LimitOverrunError
                  else client.read_response response
              | py.Raise _ => client.Raise client.IncompleteReadError
              end = client.read_response response).
    { intros response Hr. rewrite Hr. by rewrite (Hresp response Hr). }
    split_and!.
    + intros h result Hh Hret.
      assert (Hr : process_request server request
                   = py.Ok (result_response result (json.get request "id"))).
      { unfold process_request. cbv zeta. rewrite Hm, Hp.
        unfold contains, getitem. rewrite Hh, bool_decide_eq_true_2 by eauto.
        by rewrite Hret. }
      rewrite (Hgo _ Hr). unfold client.read_response.
      destruct (result_response_lookup result (json.get request "id"))
        as (_ & _ & Hres & ->).
      unfold json.get at 1. by rewrite Hres.
    + intros h msg Hh Hraise.
      assert (Hr : process_request server request
                   = py.Ok (error_response (-32000) msg (json.get request "id"))).
      { unfold process_request. cbv zeta. rewrite Hm, Hp.
        unfold contains, getitem. rewrite Hh, bool_decide_eq_true_2 by eauto.
        by rewrite Hraise. }
      rewrite (Hgo _ Hr). apply Herr.
    + intros Hnone.
      assert (Hr : process_request server request
                   = py.Ok (error_response (-32601) "Method not found"
                              (json.get request "id"))).
      { unfold process_request. cbv zeta. rewrite Hm. unfold contains.
        by rewrite Hnone, bool_decide_eq_false_2 by (by intros [? ?]). }
      rewrite (Hgo _ Hr). apply Herr.
  - intros Hreq. by rewrite Hreq.
  - intros Hreq response Hr Hresp. rewrite Hreq. cbn [negb].
    by rewrite Hr, Hresp.
  - eexists. reflexivity.
Qed.

Lemma client_call_outcomes_witness :
  client.call samples2.short_lines true "/var/run/sentinel/sentinel.sock"
    fixtures.server "threats" None
  = client.Return (json.Arr [])
  /\ client.call samples2.short_lines true "/var/run/sentinel/sentinel.sock"
       fixtures.server "nope" None
     = client.Raise (client.RuntimeError (json.Str "Method not found"))
  /\ client.call samples2.long_lines true "/var/run/sentinel/sentinel.sock"
       fixtures.server "threats" None
     = client.Raise client.ConnectionDropped.
Proof.
  split_and!.
  - destruct (client_call_outcomes samples2.short_lines fixtures.server
                "/var/run/sentinel/sentinel.sock" "threats" None) as (Hfit & _).
    destruct Hfit as (Hret & _); [reflexivity | intros response _; reflexivity |].
    apply (Hret fixtures.handle_threats); vm_compute; reflexivity.
  - destruct (client_call_outcomes samples2.short_lines fixtures.server
                "/var/run/sentinel/sentinel.sock" "nope" None) as (Hfit & _).
    destruct Hfit as (_ & _ & Hnone); [reflexivity | intros response _; reflexivity |].
    apply Hnone. vm_compute; reflexivity.
  - destruct (client_call_outcomes samples2.long_lines fixtures.server
                "/var/run/sentinel/sentinel.sock" "threats" None) as (_ & Hlong & _).
    apply Hlong. reflexivity.
Defined.

End IPCMore.

(** ** Parsing and the detection pipeline *)

Section Analyze.
Context {Pattern Match : Type} `{Regex Pattern Match} `{RegexMatch Pattern Match}.
Import parser.

Lemma get_parser_init (rules_path : string) (loaded : list (engine.Rule Pattern))
    (path : string) :
  pipeline._get_parser (pipeline.__init__ rules_path loaded) path
  = py.Ok (if py.str_in "nginx" path then pipeline.NginxParser
           else if py.str_in "auth.log" path || py.str_in "secure" path
                then pipeline.SSHParser
                else pipeline.GenericParser).
Proof.
  unfold pipeline._get_parser.
  destruct (py.str_in "nginx" path); [done|].
  by destruct (py.str_in "auth.log" path || py.str_in "secure" path).
Qed.

Lemma first_groupdict_nonempty (ps : list Pattern) (line : string) :
  first_groupdict ps line <> ∅ ->
  exists pattern, In pattern ps /\ is_Some (search pattern line).
Proof.
  induction ps as [|p ps IH]; [done|]. cbn [first_groupdict].
  destruct (search p line) as [m|] eqn:Hs.
  - intros _. exists p. split; [by left|]. rewrite Hs. eauto.
  - intros Hne. destruct (IH Hne) as (q & Hq & Hsq). exists q. split; [by right|done].
Qed.

(** What every parser puts into the event it returns. *)
Lemma parse_event (c : Compiled Pattern) (p : pipeline.LogParser) (line : string)
    (now : Q) (event : base.ParsedEvent) :
  parse c p line now = py.Ok (Some event) ->
  base.source event = pipeline.name p
  /\ base.raw event = line
  /\ base.timestamp event = now.
Proof.
  destruct p; cbn [parse].
  - unfold nginx_parse. destruct (match_ _ line); [|done].
    destruct (request_of _); [|done]. by intros [= <-].
  - unfold ssh_parse. destruct (negb _); [done|].
    case_bool_decide; [done|]. by intros [= <-].
  - by intros [= <-].
Qed.

(** X22: on a path that selects the ssh parser (it contains "auth.log"
    or "secure" and not "nginx"), a line without "sshd[" never yields a
    threat, whatever the rules; a threat that is returned has source "ssh"
    and comes from a line that contains "sshd[" and in which one of the
    parser's own expressions is found. *)
Theorem analyze_on_ssh_path (c : Compiled Pattern) (rules_path : string)
    (loaded : list (engine.Rule Pattern)) (path line : string) (now : Q)
    (env : models.Env) :
  ~ Substring "nginx" path ->
  Substring "auth.log" path \/ Substring "secure" path ->
  let self := pipeline.__init__ rules_path loaded in
  (~ Substring "sshd[" line -> analyze c self path line now env = py.Ok None)
  /\ (forall t, analyze c self path line now env = py.Ok (Some t) ->
        Substring "sshd[" line
        /\ (exists pattern, In pattern (ssh_patterns c)
                            /\ is_Some (search pattern line))
        /\ models.source t = "ssh").
Proof.
  intros Hn Hs self. unfold analyze. subst self. rewrite get_parser_init.
  apply str_in_false in Hn. rewrite Hn.
  rewrite <- !str_in_spec in Hs. apply orb_true_iff in Hs. rewrite Hs.
  cbn [parse]. unfold ssh_parse. split.
  - intros Hsshd. apply str_in_false in Hsshd. by rewrite Hsshd.
  - intros t. destruct (py.str_in "sshd[" line) eqn:Hsshd; cbn [negb]; [|done].
    case_bool_decide as Hempty; [done|]. intros [= Ht].
    split_and!.
    + by apply str_in_spec.
    + by apply first_groupdict_nonempty.
    + unfold engine.evaluate in Ht. cbn [fst] in Ht.
      destruct (evaluate_rules_Some _ _ _ _ Ht) as (? & ? & ? & ? & _ & _ & _ & _ & ->).
      reflexivity.
Qed.

(** X23: on a path that selects the generic parser (it contains none of
    "nginx", "auth.log", "secure") every line is analysed as a generic
    event holding the line: a threat is returned exactly when some loaded
    rule whose [log_source] is "any" or "generic" has a pattern found in
    the line. Rules written for another source never fire there. *)
Theorem analyze_on_generic_path (c : Compiled Pattern) (rules_path : string)
    (loaded : list (engine.Rule Pattern)) (path line : string) (now : Q)
    (env : models.Env) :
  ~ Substring "nginx" path ->
  ~ Substring "auth.log" path ->
  ~ Substring "secure" path ->
  exists answer,
    analyze c (pipeline.__init__ rules_path loaded) path line now env = py.Ok answer
    /\ (is_Some answer <->
        exists rule, In rule loaded
          /\ (engine.source rule = "any" \/ engine.source rule = "generic")
          /\ exists pattern, In pattern (engine.patterns rule)
                             /\ is_Some (search pattern line))
    /\ (forall t, answer = Some t ->
          models.source t = "generic" /\ models.raw_log t = Some line).
Proof.
  intros Hn Ha Hs. unfold analyze. rewrite get_parser_init.
  apply str_in_false in Hn, Ha, Hs. rewrite Hn, Ha, Hs.
  cbn [orb parse generic_parse]. eexists. split; [reflexivity|].
  unfold engine.evaluate. cbn [fst pipeline.rule_engine pipeline.__init__ engine.rules].
  split; [apply evaluate_rules_is_Some|].
  intros t Ht.
  destruct (evaluate_rules_Some _ _ _ _ Ht) as (? & ? & ? & ? & _ & _ & _ & _ & ->).
  by split.
Qed.

(** X24: [analyze] never raises on a pipeline built by the constructor: a
    failure inside the parser is swallowed and answered with no threat. A
    threat that is returned, on any pipeline, has as source the name of the
    parser selected for the path, holds the analysed line as its raw log,
    and names a rule. *)
Theorem analyze_answers (c : Compiled Pattern) (self : pipeline.DetectionPipeline Pattern)
    (path line : string) (now : Q) (env : models.Env) :
  (forall rules_path loaded,
     exists answer,
       analyze c (pipeline.__init__ rules_path loaded) path line now env = py.Ok answer)
  /\ (forall t, analyze c self path line now env = py.Ok (Some t) ->
        exists p, pipeline._get_parser self path = py.Ok p
                  /\ models.source t = pipeline.name p
                  /\ models.raw_log t = Some line
                  /\ is_Some (models.rule_id t)).
Proof.
  split.
  - intros rules_path loaded. unfold analyze. rewrite get_parser_init.
    destruct (parse c _ line now) as [[event|]|e]; eauto.
  - intros t. unfold analyze.
    destruct (pipeline._get_parser self path) as [p|e]; [|done].
    destruct (parse c p line now) as [[event|]|e] eqn:Hparse; try done.
    intros [= Ht]. exists p. split; [done|].
    destruct (parse_event c p line now event Hparse) as (Hsrc & Hraw & _).
    unfold engine.evaluate in Ht. cbn [fst] in Ht.
    destruct (evaluate_rules_Some _ _ _ _ Ht) as (? & ? & ? & ? & _ & _ & _ & _ & ->).
    cbn. rewrite Hsrc, Hraw. split_and!; eauto.
Qed.

Lemma split_words (s : string) :
  Forall (fun word => word <> EmptyString /\ pystr.no_space word = true)
    (pystr.split s).
Proof.
  unfold pystr.no_space.
  induction s as [|c s IH]; [constructor|]. cbn [pystr.split].
  destruct (py.isspace c) eqn:Hc; [exact IH|].
  assert (Hone : String c EmptyString <> EmptyString
                 /\ models.all_chars (fun c => negb (py.isspace c))
                      (String c EmptyString) = true)
    by (split; [done | cbn; by rewrite Hc]).
  destruct s as [|c' s']; [by constructor|].
  destruct (py.isspace c'); [by constructor|].
  destruct (pystr.split (String c' s')) as [|word words]; [by constructor|].
  apply Forall_cons in IH as [[_ Hw] Hws]. constructor; [|done].
  split; [done|]. cbn [models.all_chars]. by rewrite Hc, Hw.
Qed.

(** X25: what [NginxParser.parse] makes of a matched line. The event has
    source "nginx", the line as raw text and the ingestion time as
    timestamp. When the captured request has at least two words, the fields
    [method] and [path] are its first two words, non-empty and free of
    white space, and [protocol] is the third word or the empty string;
    every other captured field is kept as captured. *)
Theorem nginx_parse_request_fields (c : Compiled Pattern) (line : string) (now : Q)
    (m : Match) (request first second : string) (rest : list string) :
  match_ (COMBINED_LOG_PATTERN c) line = Some m ->
  groupdict m !! "request" = Some (Some request) ->
  pystr.split request = first :: second :: rest ->
  exists event,
    nginx_parse c line now = py.Ok (Some event)
    /\ base.source event = "nginx"
    /\ base.raw event = line
    /\ base.timestamp event = now
    /\ base.data event !! "method" = Some first
    /\ base.data event !! "path" = Some second
    /\ base.data event !! "protocol" = Some (hd EmptyString rest)
    /\ first <> EmptyString /\ pystr.no_space first = true
    /\ second <> EmptyString /\ pystr.no_space second = true
    /\ (forall key value,
          key <> "method" -> key <> "path" -> key <> "protocol" ->
          groupdict m !! key = Some (Some value) ->
          base.data event !! key = Some value).
Proof.
  intros Hm Hreq Hsplit. unfold nginx_parse, request_of. rewrite Hm, Hreq, Hsplit.
  eexists. split; [reflexivity|]. cbn [base.source base.raw base.timestamp base.data].
  pose proof (split_words request) as Hwords. rewrite Hsplit in Hwords.
  apply Forall_cons in Hwords as [[Hf1 Hf2] Hwords].
  apply Forall_cons in Hwords as [[Hs1 Hs2] _].
  split_and!; try done.
  - by simplify_map_eq.
  - by simplify_map_eq.
  - simplify_map_eq. by destruct rest.
  - intros key value Hk1 Hk2 Hk3 Hkey.
    rewrite !lookup_insert_ne by done. unfold to_data.
    rewrite lookup_omap, Hkey. done.
Qed.

End Analyze.

Section AnalyzeWitnesses.
Import parser.

Lemma analyze_on_ssh_path_witness :
  analyze samples3.compiled samples3.the_pipeline "/var/log/auth.log"
    "Oct 10 13:55:36 host cron[1]: Failed to run job" 0 (fixtures.env_of 1)
  = py.Ok None.
Proof.
  destruct (analyze_on_ssh_path samples3.compiled "/etc/sentinel/rules"
              [samples3.any_rule] "/var/log/auth.log"
              "Oct 10 13:55:36 host cron[1]: Failed to run job" 0 (fixtures.env_of 1))
    as (Hnone & _).
  - apply str_in_false. vm_compute; reflexivity.
  - left. apply str_in_spec. vm_compute; reflexivity.
  - apply Hnone. apply str_in_false. vm_compute; reflexivity.
Defined.

Lemma analyze_on_generic_path_witness :
  exists answer,
    analyze samples3.compiled samples3.the_pipeline "/var/log/syslog"
      "Oct 10 13:55:36 host cron[1]: Failed to run job" 0 (fixtures.env_of 1)
    = py.Ok answer
    /\ is_Some answer.
Proof.
  destruct (analyze_on_generic_path samples3.compiled "/etc/sentinel/rules"
              [samples3.any_rule] "/var/log/syslog"
              "Oct 10 13:55:36 host cron[1]: Failed to run job" 0 (fixtures.env_of 1))
    as (answer & Hanswer & Hiff & _);
    [apply str_in_false; vm_compute; reflexivity ..|].
  exists answer. split; [exact Hanswer|]. apply Hiff.
  exists samples3.any_rule. split_and!; [by left | by left |].
  eexists. split; [by left|]. vm_compute. eauto.
Defined.

Lemma analyze_answers_witness :
  exists t,
    analyze samples3.compiled samples3.the_pipeline "/var/log/syslog"
      "Oct 10 13:55:36 host cron[1]: Failed to run job" 0 (fixtures.env_of 1)
    = py.Ok (Some t)
    /\ models.source t = "generic".
Proof.
  eexists. split; [vm_compute; reflexivity|].
  match goal with
  | |- models.source ?t = _ =>
      assert (Ht : analyze samples3.compiled samples3.the_pipeline "/var/log/syslog"
                     "Oct 10 13:55:36 host cron[1]: Failed to run job" 0
                     (fixtures.env_of 1) = py.Ok (Some t))
        by (vm_compute; reflexivity);
      destruct (analyze_answers samples3.compiled samples3.the_pipeline
                  "/var/log/syslog" "Oct 10 13:55:36 host cron[1]: Failed to run job"
                  0 (fixtures.env_of 1)) as (_ & Hsome);
      destruct (Hsome t Ht) as (p & Hp & Hsrc & _)
  end.
  vm_compute in Hp. injection Hp as <-. exact Hsrc.
Defined.

Lemma nginx_parse_request_fields_witness :
  exists event,
    nginx_parse samples3.compiled samples3.nginx_line 0 = py.Ok (Some event)
    /\ base.data event !! "method" = Some "GET"
    /\ base.data event !! "path" = Some "/index.html"
    /\ base.data event !! "protocol" = Some "HTTP/1.0"
    /\ base.data event !! "status" = Some "200".
Proof.
  destruct (nginx_parse_request_fields samples3.compiled samples3.nginx_line 0
              (<["remote_addr" := Some "127.0.0.1"]>
                 (<["request" := Some "GET /index.html HTTP/1.0"]>
                    (<["status" := Some "200"]> ∅)))
              "GET /index.html HTTP/1.0" "GET" "/index.html" ["HTTP/1.0"])
    as (event & Hparse & _ & _ & _ & Hm & Hp & Hproto & _ & _ & _ & _ & Hkeep);
    [vm_compute; reflexivity ..|].
  exists event. split_and!; [exact Hparse | exact Hm | exact Hp | exact Hproto |].
  apply Hkeep; [done | done | done |]. vm_compute; reflexivity.
Defined.

End AnalyzeWitnesses.

(** ** Discovery, registration at start-up and the "threats" handler *)

Section Startup.
Import watcher.

Lemma add_discovered_fold (logs : list (string * list string)) (w : LogWatcher) :
  main.add_discovered logs w = fold_left add_path (concat (map snd logs)) w.
Proof.
  unfold main.add_discovered. revert w.
  induction logs as [|item logs IH]; intros w; [done|].
  cbn [fold_left map concat]. by rewrite IH, fold_left_app.
Qed.

Lemma add_configured_fold (sources : list main.LogSource) (w : LogWatcher) :
  main.add_configured sources w
  = fold_left add_path
      (map main.path (List.filter main.enabled sources)) w.
Proof.
  unfold main.add_configured. revert w.
  induction sources as [|source sources IH]; intros w; [done|].
  cbn [fold_left List.filter]. rewrite IH. by destruct (main.enabled source).
Qed.

(** X26: the paths the agent tails after start-up. Starting from a
    watcher [w], the registration loops of [run] leave every tailer of [w]
    as it is and add a fresh default tailer for exactly the paths that had
    none and are either discovered (when discovery is switched on) or the
    path of an enabled configured source. A disabled source is not tailed
    unless discovery found its path. *)
Theorem register_paths_tailers (logs_discovery : bool)
    (logs : list (string * list string)) (sources : list main.LogSource)
    (w : LogWatcher) (p : string) :
  let wanted :=
    ((if logs_discovery then concat (map snd logs) else [])
       ++ map main.path (List.filter main.enabled sources))%list in
  tailers (main.register_paths logs_discovery logs sources w) !! p
  = match tailers w !! p with
    | Some t => Some t
    | None => if bool_decide (p ∈ wanted) then Some (FileTailer_default p) else None
    end.
Proof.
  intros wanted. unfold main.register_paths.
  rewrite add_configured_fold.
  assert (Hfold : (if logs_discovery then main.add_discovered logs w else w)
                  = fold_left add_path
                      (if logs_discovery then concat (map snd logs) else []) w).
  { destruct logs_discovery; [apply add_discovered_fold | done]. }
  rewrite Hfold, <- fold_left_app. apply fold_add_path_lookup.
Qed.






(** Discovery on, with one enabled source outside the map, one disabled
    source, and one enabled source that discovery finds as well. *)
Lemma register_paths_tailers_witness :
  let w := main.register_paths true
             (discovery.discover samples4.existing samples4.no_glob)
             samples4.sources (new_LogWatcher []) in
  dom (tailers w)
  = {["/var/log/auth.log"; "/var/log/syslog"; "/srv/app/app.log"]}
  /\ tailers w !! "/srv/app/debug.log" = None.
Proof.
  cbv zeta. split.
  - apply set_eq. intros p. rewrite elem_of_dom.
    rewrite (register_paths_tailers true
               (discovery.discover samples4.existing samples4.no_glob)
               samples4.sources (new_LogWatcher []) p).
    cbn [new_LogWatcher fold_left tailers]. rewrite lookup_empty.
    case_bool_decide as Hin.
    + split; [intros _|eauto]. vm_compute in Hin.
      repeat (apply elem_of_cons in Hin as [->|Hin]; [set_solver|]).
      by apply elem_of_nil in Hin.
    + split; [by intros [? ?]|]. intros Hp. exfalso. apply Hin. vm_compute.
      set_solver.
  - rewrite (register_paths_tailers true
               (discovery.discover samples4.existing samples4.no_glob)
               samples4.sources (new_LogWatcher []) "/srv/app/debug.log").
    reflexivity.
Defined.

End Startup.

Section ThreatsHandler.
Import database.

(** X28: the "threats" handler. Called with an object, it reads [limit]
    (10 when absent) and, on an open store and with an integer limit that
    fits 64 bits, returns one summary per threat that [get_threats] returns
    for that limit, in the same order, each with exactly the keys [id],
    [severity], [source], [description] and [created_at] of its threat.
    Called with anything but an object it raises, naming the missing
    [get]. *)
Theorem handle_threats_summaries (coerce_limit : json.value -> py.res Z)
    (store : ThreatStore) (db : Connection) (m : gmap string json.value) (n : Z) :
  _db store = Some db ->
  m !! "limit" = Some (json.Int n) \/ (m !! "limit" = None /\ n = 10%Z) ->
  fits_int64 n = true ->
  (exists threats,
     get_threats store n = py.Ok threats
     /\ main.handle_threats coerce_limit store (json.Obj m)
        = ipc.Returns (json.Arr (map main.summary threats))
     /\ Forall (fun t =>
          exists fields,
            main.summary t = json.Obj fields
            /\ dom fields = {["id"; "severity"; "source"; "description"; "created_at"]}
            /\ fields !! "id" = Some (json.Str (models.id t))
            /\ fields !! "created_at" = Some (json.Str (models.created_at t)))
          threats)
  /\ (forall params, (forall fields, params <> json.Obj fields) ->
        exists msg, main.handle_threats coerce_limit store params = ipc.Raises msg).
Proof.
  intros Hdb Hlimit Hfit. split.
  - assert (Hn : main.limit_of coerce_limit (json.get_default m "limit" (json.Int 10))
                 = py.Ok n).
    { unfold json.get_default. destruct Hlimit as [-> | [-> ->]]; done. }
    assert (Hget : exists threats, get_threats store n = py.Ok threats)
      by (unfold get_threats; rewrite Hdb, Hfit; eauto).
    destruct Hget as [threats Hget]. exists threats. split_and!; [done | |].
    + unfold main.handle_threats. cbv zeta. by rewrite Hn, Hget.
    + apply Forall_forall. intros t _. eexists. split; [reflexivity|].
      split_and!; [|by simplify_map_eq..].
      rewrite !dom_insert_L, dom_empty_L. set_solver.
  - intros params Hnot. destruct params; try (eexists; reflexivity).
    by destruct (Hnot m0).
Qed.

Lemma handle_threats_summaries_witness :
  main.handle_threats samples4.refuse fixtures.store
    (json.Obj (<["limit" := json.Int 1]> ∅))
  = ipc.Returns
      (json.Arr [main.summary (fixtures.threat_at "THR-000000000002"
                                 "2024-01-03T10:00:00")]).
Proof.
  destruct (handle_threats_summaries samples4.refuse fixtures.store
              {| threats := [ fixtures.threat_at "THR-000000000001" "2024-01-01T10:00:00";
                              fixtures.threat_at "THR-000000000002" "2024-01-03T10:00:00";
                              fixtures.threat_at "THR-000000000003" "2024-01-02T10:00:00" ] |}
              (<["limit" := json.Int 1]> ∅) 1)
    as ((threats & Hget & Hret & _) & _);
    [reflexivity | left; reflexivity | reflexivity |].
  vm_compute in Hget. injection Hget as <-. exact Hret.
Defined.

End ThreatsHandler.

(** ** Loading rules *)

Section LoadRules.
Context {Pattern : Type} `{RegexCompile Pattern}.
Import rule_file rule_shape.

Lemma compile_conditions_plain (l : list json.value) :
  forallb plain_condition l = true ->
  forallb compiles_or_refused l = true ->
  compile_conditions l = py.Ok (omap compiled_expression l).
Proof.
  induction l as [|cond l IH]; [done|]. cbn [forallb].
  intros [Hplain Hl]%andb_prop [Hcomp Hl']%andb_prop.
  cbn [compile_conditions omap list_omap]. rewrite (IH Hl Hl').
  destruct cond as [| | | | |  | c]; try discriminate Hplain.
  unfold compiles_or_refused, compiled_expression, expression in *.
  cbn [pattern_of plain_condition] in *.
  destruct (c !! "pattern") as [v|]; [|done]. cbn [absent_or] in Hplain.
  destruct v; try discriminate Hplain. cbn [mbind option_bind as_str compile_value] in *.
  by destruct (compile s).
Qed.



(** What [from_dict] returns on a well-formed document with values of the
    declared types. *)
Lemma from_dict_well_formed_rule (m : gmap string json.value) :
  well_formed (json.Obj m) = true ->
  declared_types (json.Obj m) = true ->
  exists rule_id rule_name,
    m !! "id" = Some (json.Str rule_id)
    /\ m !! "name" = Some (json.Str rule_name)
    /\ from_dict (json.Obj m)
       = py.Ok (OneRule
           {| engine.id := rule_id;
              engine.name := rule_name;
              engine.description :=
                default EmptyString (m !! "description" ≫= as_str);
              engine.severity := default "MEDIUM" (m !! "severity" ≫= as_str);
              engine.source := default "any" (m !! "log_source" ≫= as_str);
              engine.patterns :=
                omap compiled_expression
                  (match m !! "conditions" with
                   | Some (json.Arr l) => l
                   | _ => []
                   end);
              engine.threshold :=
                default 1%Z (m !! "aggregation" ≫= fun agg =>
                             match agg with
                             | json.Obj a => a !! "threshold" ≫= as_int
                             | _ => None
                             end);
              engine.window :=
                default 60%Z (m !! "aggregation" ≫= fun agg =>
                              match agg with
                              | json.Obj a => a !! "window" ≫= as_int
                              | _ => None
                              end) |}).
Proof.
  unfold well_formed, declared_types.
  intros Hw Ht. repeat (apply andb_prop in Hw as [Hw ?]).
  repeat (apply andb_prop in Ht as [Ht ?]).
  apply bool_decide_eq_true_1 in Hw as [rule_id Hid].
  match goal with Hn : bool_decide (is_Some (m !! "name")) = true |- _ =>
    apply bool_decide_eq_true_1 in Hn as [rule_name Hname] end.
  rewrite Hid, Hname in *. cbn [absent_or] in *.
  destruct rule_id; try discriminate. destruct rule_name; try discriminate.
  do 2 eexists. split; [reflexivity|]. split; [reflexivity|].
  cbn [from_dict]. unfold json.get_default.
  assert (Hconds : match iterate (default (json.Arr []) (m !! "conditions")) with
                   | py.Ok conds => compile_conditions conds
                   | py.Raise e => py.Raise e
                   end
                   = py.Ok (omap compiled_expression
                              (match m !! "conditions" with
                               | Some (json.Arr l) => l
                               | _ => []
                               end))).
  { destruct (m !! "conditions") as [conds|]; [|done].
    destruct conds; try discriminate. cbn [default iterate].
    match goal with Hc : forallb plain_condition _ && _ = true |- _ =>
      apply andb_prop in Hc as [Hp Hc] end.
    by apply compile_conditions_plain. }
  destruct (iterate (default (json.Arr []) (m !! "conditions"))) as [conds|e];
    [|discriminate Hconds].
  rewrite Hconds, Hid, Hname.
  destruct (m !! "aggregation") as [agg|]; cbn [default absent_or] in *.
  - destruct agg; try discriminate. cbn [mbind option_bind id].
    unfold make_rule, json.get_default. cbn [as_str].
    destruct (m !! "description") as [[]|]; try discriminate;
    destruct (m !! "severity") as [[]|]; try discriminate;
    destruct (m !! "log_source") as [[]|]; try discriminate;
    match goal with Ha : absent_or is_int _ && absent_or is_int _ = true |- _ =>
      apply andb_prop in Ha as [Ha1 Ha2] end;
    destruct (m0 !! "threshold") as [[]|]; try discriminate;
    destruct (m0 !! "window") as [[]|]; try discriminate; reflexivity.
  - unfold make_rule. cbn [as_str mbind option_bind].
    destruct (m !! "description") as [[]|]; try discriminate;
    destruct (m !! "severity") as [[]|]; try discriminate;
    destruct (m !! "log_source") as [[]|]; try discriminate; reflexivity.
Qed.

Lemma omap_length_le {A B} (f : A -> option B) (l : list A) :
  length (omap f l) <= length l.
Proof.
  induction l as [|x l IH]; [done|]. cbn [omap list_omap].
  destruct (f x); cbn [length]; lia.
Qed.




(** X30: the rule a well-formed file gives. Its [id] and [name] are those
    of the file; its patterns are the expressions of the file's conditions
    that compile, in order, an expression that does not compile being
    dropped without dropping the rule; an absent [description],
    [severity], [log_source] reads as the empty string, "MEDIUM" and "any",
    an absent [aggregation], [threshold] or [window] as threshold 1 and
    window 60. *)
Theorem from_dict_on_well_formed_file (m : gmap string json.value) :
  well_formed (json.Obj m) = true ->
  declared_types (json.Obj m) = true ->
  exists rule,
    from_dict (json.Obj m) = py.Ok (OneRule rule)
    /\ m !! "id" = Some (json.Str (engine.id rule))
    /\ m !! "name" = Some (json.Str (engine.name rule))
    /\ (m !! "conditions" = None -> engine.patterns rule = [])
    /\ (forall l, m !! "conditions" = Some (json.Arr l) ->
          engine.patterns rule = omap compiled_expression l
          /\ length (engine.patterns rule) <= length l)
    /\ (m !! "description" = None -> engine.description rule = EmptyString)
    /\ (m !! "severity" = None -> engine.severity rule = "MEDIUM")
    /\ (m !! "log_source" = None -> engine.source rule = "any")
    /\ (forall text, m !! "severity" = Some (json.Str text) ->
          engine.severity rule = text)
    /\ (forall text, m !! "log_source" = Some (json.Str text) ->
          engine.source rule = text)
    /\ (m !! "aggregation" = None ->
        engine.threshold rule = 1%Z /\ engine.window rule = 60%Z)
    /\ (forall agg, m !! "aggregation" = Some (json.Obj agg) ->
          (agg !! "threshold" = None -> engine.threshold rule = 1%Z)
          /\ (agg !! "window" = None -> engine.window rule = 60%Z)
          /\ (forall n, agg !! "threshold" = Some (json.Int n) ->
                engine.threshold rule = n)
          /\ (forall n, agg !! "window" = Some (json.Int n) ->
                engine.window rule = n)).
Proof.
  intros Hw Ht.
  destruct (from_dict_well_formed_rule m Hw Ht)
    as (rule_id & rule_name & Hid & Hname & Hrule).
  eexists. split; [exact Hrule|].
  cbn [engine.id engine.name engine.patterns engine.description engine.severity
       engine.source engine.threshold engine.window].
  split_and!; try done.
  - by intros ->.
  - intros l ->. split; [done|]. apply omap_length_le.
  - by intros ->.
  - by intros ->.
  - by intros ->.
  - by intros text ->.
  - by intros text ->.
  - by intros ->.
  - intros agg ->. cbn [mbind option_bind].
    split_and!; [by intros -> | by intros -> | by intros n -> | by intros n ->].
Qed.

End LoadRules.

Section LoadRulesWitness.
Import rule_file rule_shape.


(** The good file: the expression with the unbalanced parenthesis and the
    condition without expression leave one pattern. *)
Lemma from_dict_on_well_formed_file_witness :
  exists rule,
    from_dict samples5.good = py.Ok (OneRule rule)
    /\ engine.patterns rule = ["Failed password for"]
    /\ engine.severity rule = "HIGH"
    /\ engine.threshold rule = 1%Z.
Proof.
  destruct (from_dict_on_well_formed_file
              (<["id" := json.Str "ssh-bf"]>
                 (<["name" := json.Str "SSH brute force"]>
                    (<["severity" := json.Str "HIGH"]>
                       (<["log_source" := json.Str "ssh"]>
                          (<["conditions" :=
                               json.Arr
                                 [ json.Obj (<["pattern" :=
                                                 json.Str "Failed password for"]> ∅);
                                   json.Obj (<["pattern" := json.Str "broken ("]> ∅);
                                   json.Obj (<["type" := json.Str "regex"]> ∅) ]]> ∅))))))
    as (rule & Hrule & _ & _ & _ & Hpatterns & _ & _ & _ & Hsev & _ & Hagg & _);
    [vm_compute; reflexivity .. |].
  exists rule. split_and!.
  - exact Hrule.
  - destruct (Hpatterns _ eq_refl) as [-> _]. vm_compute. reflexivity.
  - apply Hsev. vm_compute. reflexivity.
  - apply Hagg. vm_compute. reflexivity.
Defined.

End LoadRulesWitness.
